(** * gogb: the Game Boy emulator core, embedded in Rocq

    The development follows the Go packages of the repository:

    - [Go]      the fragment of Go's semantics the code relies on: fixed-width
                integers with wrap-around, run-time panics on slice indexing,
                and [error] values;
    - [memory]  pkg/gogb/memory/memory.go  (the [MMU] interface and [RAM]);
    - [cpu]     pkg/gogb/cpu/z80.go and pkg/gogb/cpu/instructions.go;
    - [gogb]    pkg/gogb/rom.go            (the cartridge header parser).

    Pointer arguments ([*uint16], [*Z80Flags], [*RAM], [*CartridgeHeader])
    become explicit state passing: a function returns the new value of each
    object it may write through a pointer, next to its Go results. *)

From Stdlib Require Import ZArith Lia Bool List.
From stdpp Require Import base numbers list strings.

Local Open Scope Z_scope.

(* ===================================================================== *)
(** ** Go: integers, panics and errors *)
(* ===================================================================== *)

Module Go.

(** Conversion to (and arithmetic in) [uint8] and [uint16] wraps. *)
Definition uint8 (z : Z) : Z := z mod 2 ^ 8.
Definition uint16 (z : Z) : Z := z mod 2 ^ 16.

(** [int] is the 64-bit two's complement integer of the gc compiler. *)
Definition int (z : Z) : Z := (z + 2 ^ 63) mod 2 ^ 64 - 2 ^ 63.

Definition is_uint8 (z : Z) : Prop := 0 <= z < 2 ^ 8.
Definition is_uint16 (z : Z) : Prop := 0 <= z < 2 ^ 16.
Definition is_int (z : Z) : Prop := - 2 ^ 63 <= z < 2 ^ 63.

(** A call either returns normally or panics at run time. *)
Inductive go (A : Type) : Type :=
| Return (a : A)
| Panic.
Arguments Return {A} a.
Arguments Panic {A}.

Definition bind {A B : Type} (m : go A) (k : A -> go B) : go B :=
  match m with
  | Return a => k a
  | Panic => Panic
  end.

(** The sentinel [error] values of the repository; Go's [nil] error is
    [None] of [option error]. *)
Inductive error : Type :=
| ErrAddressOutOfRange     (* memory *)
| ErrStackOverflow         (* cpu *)
| ErrStackUnderflow        (* cpu *)
| ErrHeaderLengthInvalid   (* gogb *)
| ErrHeaderChecksumInvalid (* gogb *).

Definition error_eqb (a b : error) : bool :=
  match a, b with
  | ErrAddressOutOfRange, ErrAddressOutOfRange
  | ErrStackOverflow, ErrStackOverflow
  | ErrStackUnderflow, ErrStackUnderflow
  | ErrHeaderLengthInvalid, ErrHeaderLengthInvalid
  | ErrHeaderChecksumInvalid, ErrHeaderChecksumInvalid => true
  | _, _ => false
  end.

(** [errors.Is(err, target)] on sentinels that wrap nothing. *)
Definition errors_Is (err : option error) (target : error) : bool :=
  match err with
  | Some e => error_eqb e target
  | None => false
  end.

(** [len(s)] as an [int]. *)
Definition len {A : Type} (s : list A) : Z := Z.of_nat (length s).

(** [s[i]]: the run time checks [0 <= i < len(s)] and panics otherwise. *)
Definition index {A : Type} (s : list A) (i : Z) : go A :=
  if i <? 0 then Panic
  else match s !! Z.to_nat i with
       | Some a => Return a
       | None => Panic
       end.

(** [s[i] = v]: same check; the slice is written in place. *)
Definition store {A : Type} (s : list A) (i : Z) (v : A) : go (list A) :=
  if (i <? 0) || (len s <=? i) then Panic
  else Return (<[Z.to_nat i := v]> s).

(** [s[lo:hi]] for constant bounds already known to be within [len(s)]. *)
Definition slice {A : Type} (s : list A) (lo hi : nat) : list A :=
  take (hi - lo) (drop lo s).

End Go.

(** [go] is a monad in stdpp's sense, which gives the [x ← m; k] notation. *)
#[global] Instance go_ret : MRet Go.go := @Go.Return.
#[global] Instance go_bind : MBind Go.go := fun A B k m => Go.bind m k.

(* ===================================================================== *)
(** ** package memory *)
(* ===================================================================== *)

Module memory.
Import Go.

(** [type MMU interface]: addresses are [int], bytes [uint8], words
    [uint16].  A setter returns the memory after the call. *)
Class MMU (M : Type) : Type := {
  GetByte : M -> Z -> go (Z * option error);
  GetWord : M -> Z -> go (Z * option error);
  SetByte : M -> Z -> Z -> go (M * option error);
  SetWord : M -> Z -> Z -> go (M * option error)
}.

(** [type RAM struct { data []uint8 }] *)
Record RAM : Type := { data : list Z }.

(** [NewRAM(size uint16)]: [make([]uint8, size)] is zero-filled. *)
Definition NewRAM (size : Z) : RAM :=
  {| data := replicate (Z.to_nat size) 0 |}.

Definition RAM_GetByte (r : RAM) (addr : Z) : go (Z * option error) :=
  if addr >=? len r.(data) then Return (0, Some ErrAddressOutOfRange)
  else
    b ← index r.(data) addr;
    Return (b, None).

Definition RAM_GetWord (r : RAM) (addr : Z) : go (Z * option error) :=
  if int (addr + 1) >=? len r.(data) then Return (0, Some ErrAddressOutOfRange)
  else
    hi ← index r.(data) addr;
    lo ← index r.(data) (int (addr + 1));
    Return (Z.lor (uint16 (Z.shiftl hi 8)) lo, None).

Definition RAM_SetByte (r : RAM) (addr : Z) (val : Z) : go (RAM * option error) :=
  if addr >=? len r.(data) then Return (r, Some ErrAddressOutOfRange)
  else
    d ← store r.(data) addr val;
    Return ({| data := d |}, None).

Definition RAM_SetWord (r : RAM) (addr : Z) (val : Z) : go (RAM * option error) :=
  if int (addr + 1) >=? len r.(data) then Return (r, Some ErrAddressOutOfRange)
  else
    d ← store r.(data) addr (uint8 (Z.shiftr (Z.land val 0xFF00) 8));
    d ← store d (int (addr + 1)) (uint8 (Z.land val 0x00FF));
    Return ({| data := d |}, None).

#[global] Instance RAM_MMU : MMU RAM := {
  GetByte := RAM_GetByte;
  GetWord := RAM_GetWord;
  SetByte := RAM_SetByte;
  SetWord := RAM_SetWord
}.

End memory.

(* ===================================================================== *)
(** ** package cpu *)
(* ===================================================================== *)

Module cpu.
Import Go.

(** *** z80.go: [type Z80Flags uint8] *)

Definition FlagEmpty : Z := 0.
Definition FlagCarry : Z := uint8 (Z.shiftl 1 4).
Definition FlagHalfCarry : Z := uint8 (Z.shiftl 1 5).
Definition FlagAddSub : Z := uint8 (Z.shiftl 1 6).
Definition FlagZero : Z := uint8 (Z.shiftl 1 7).

Module Z80Flags.

(** [*f |= flag]  ([Set] is a sort of Rocq, hence the underscore). *)
Definition Set_ (f flag : Z) : Z := Z.lor f flag.

(** [*f &= ^flag]: [^] is the bitwise complement within [uint8]. *)
Definition Clear (f flag : Z) : Z := Z.land f (Z.lxor flag 0xFF).

Definition SetIf (f : Z) (condition : bool) (flag : Z) : Z :=
  if condition then Set_ f flag else Clear f flag.

Definition IsSet (f flag : Z) : bool := negb (Z.land f flag =? 0).

Definition IsClear (f flag : Z) : bool := Z.land f flag =? 0.

End Z80Flags.

(** [type State struct] *)
Record State : Type := {
  A : Z; B : Z; C : Z; D : Z; E : Z; H : Z; L : Z;
  F : Z;
  PC : Z;
  SP : Z;
  TStates : Z
}.

(** [type Z80 struct { State State; Memory memory.MMU }] *)
Record Z80 (M : Type) : Type := {
  Z80_State : State;
  Z80_Memory : M
}.
Arguments Z80_State {M} _.
Arguments Z80_Memory {M} _.

(** [NewZ80]: [State{}] is the zero value of every field. *)
Definition NewZ80 {M : Type} `{memory.MMU M} (mem : M) : Z80 M :=
  {| Z80_State := {| A := 0; B := 0; C := 0; D := 0; E := 0; H := 0; L := 0;
                     F := 0; PC := 0; SP := 0; TStates := 0 |};
     Z80_Memory := mem |}.

(** *** instructions.go

    [push] returns the stack pointer and the memory after the call, then the
    error; the conversion of [sp] from [uint16] to [int] keeps its value. *)

Definition push {M : Type} `{memory.MMU M} (val : Z) (sp : Z) (mem : M)
  : go (Z * M * option error) :=
  if sp <=? 2 then Return (sp, mem, Some ErrStackOverflow)
  else
    let sp := uint16 (sp - 2) in
    '(mem, err) ← memory.SetWord mem sp val;
    Return (sp, mem, err).

(** [pop] returns the stack pointer after the call, then the Go results. *)
Definition pop {M : Type} `{memory.MMU M} (sp : Z) (mem : M)
  : go (Z * (Z * option error)) :=
  '(res, err) ← memory.GetWord mem sp;
  if errors_Is err ErrAddressOutOfRange then Return (sp, (0, Some ErrStackUnderflow))
  else
    let sp := uint16 (sp + 2) in
    Return (sp, (res, err)).

(** [add8] returns the new [*left] and the new flags. *)
Definition add8 (left right f : Z) (withCarry : bool) : Z * Z :=
  let right :=
    if withCarry && Z80Flags.IsSet f FlagCarry then uint8 (right + 1) else right in
  let result := int (left + right) in
  let f := Z80Flags.SetIf f (result >? 0xFF) FlagCarry in
  let result := Z.land result 0xFF in
  let f := Z80Flags.Clear f FlagAddSub in
  let f := Z80Flags.SetIf f (result =? 0) FlagZero in
  let f := Z80Flags.SetIf f
             (uint8 (Z.land right 0x0F + Z.land left 0x0F) >? 0x0F) FlagHalfCarry in
  (uint8 (Z.land result 0xFF), f).

Definition add16 (left right f : Z) : Z * Z :=
  let result := int (left + right) in
  let f := Z80Flags.SetIf f (result >? 0xFFFF) FlagCarry in
  let result := Z.land result 0xFFFF in
  let f := Z80Flags.Clear f FlagAddSub in
  let f := Z80Flags.SetIf f
             (uint16 (Z.land right 0xFFF + Z.land left 0xFFF) >? 0xFFF) FlagHalfCarry in
  (uint16 (Z.land result 0xFFFF), f).

Definition and (left right f : Z) : Z * Z :=
  let left := Z.land left right in
  let f := Z80Flags.SetIf f (left =? 0) FlagZero in
  let f := Z80Flags.Clear f FlagAddSub in
  let f := Z80Flags.Set_ f FlagHalfCarry in
  let f := Z80Flags.Clear f FlagCarry in
  (left, f).

(** [bit] only writes the flags; [1<<b] takes the type of [val], [uint8]. *)
Definition bit (b val f : Z) : Z :=
  Z80Flags.SetIf f (Z.land val (uint8 (Z.shiftl 1 b)) =? 0) FlagZero.

(** [call] returns the new [*pc], the new [*sp] and the memory, then the
    error. *)
Definition call {M : Type} `{memory.MMU M} (addr pc sp : Z) (mem : M)
  : go (Z * Z * M * option error) :=
  '(sp, mem, err) ← push pc sp mem;
  match err with
  | Some e => Return (pc, sp, mem, Some e)
  | None => Return (addr, sp, mem, None)
  end.

End cpu.

(* ===================================================================== *)
(** ** package gogb (rom.go) *)
(* ===================================================================== *)

Module gogb.
Import Go.

(** A Go [string] is its sequence of bytes. *)
Definition gostring : Type := list Z.

(** [strings.TrimRight(s, cutset)] for a cutset of one ASCII byte [c], the
    only way the parser calls it: drop every trailing [c]. *)
Fixpoint strings_TrimRight (s : gostring) (c : Z) : gostring :=
  match s with
  | [] => []
  | b :: s' =>
      match strings_TrimRight s' c with
      | [] => if b =? c then [] else [b]
      | t => b :: t
      end
  end.

(** [binary.BigEndian.Uint16(b)] reads [b[1]] first, then [b[0]]. *)
Definition BigEndian_Uint16 (b : list Z) : go Z :=
  b1 ← index b 1;
  b0 ← index b 0;
  Return (Z.lor b1 (uint16 (Z.shiftl b0 8))).

(** [type CgbSupport uint8], an [iota] enumeration. *)
Inductive CgbSupport : Type :=
| CgbNotSupported
| CgbSupported
| CgbRequired.

Record CartridgeHeader : Type := {
  Title : gostring;
  ManufacturerCode : gostring;
  CGBSupport : CgbSupport;
  NewLicenseeCode : gostring;
  SGBSupport : bool;
  Type_ : Z;               (* [Type CartridgeType], a [uint8] *)
  ROMSize : Z;
  RAMSize : Z;
  Japanese : bool;
  OldLicenseeCode : Z;
  VersionNumber : Z;
  GlobalChecksum : Z
}.

(** Assignment to one field through the [*CartridgeHeader] pointer. *)
Definition set_Title (v : gostring) (h : CartridgeHeader) : CartridgeHeader :=
  Build_CartridgeHeader v h.(ManufacturerCode) h.(CGBSupport) h.(NewLicenseeCode)
    h.(SGBSupport) h.(Type_) h.(ROMSize) h.(RAMSize) h.(Japanese)
    h.(OldLicenseeCode) h.(VersionNumber) h.(GlobalChecksum).
Definition set_ManufacturerCode (v : gostring) (h : CartridgeHeader) : CartridgeHeader :=
  Build_CartridgeHeader h.(Title) v h.(CGBSupport) h.(NewLicenseeCode)
    h.(SGBSupport) h.(Type_) h.(ROMSize) h.(RAMSize) h.(Japanese)
    h.(OldLicenseeCode) h.(VersionNumber) h.(GlobalChecksum).
Definition set_CGBSupport (v : CgbSupport) (h : CartridgeHeader) : CartridgeHeader :=
  Build_CartridgeHeader h.(Title) h.(ManufacturerCode) v h.(NewLicenseeCode)
    h.(SGBSupport) h.(Type_) h.(ROMSize) h.(RAMSize) h.(Japanese)
    h.(OldLicenseeCode) h.(VersionNumber) h.(GlobalChecksum).
Definition set_NewLicenseeCode (v : gostring) (h : CartridgeHeader) : CartridgeHeader :=
  Build_CartridgeHeader h.(Title) h.(ManufacturerCode) h.(CGBSupport) v
    h.(SGBSupport) h.(Type_) h.(ROMSize) h.(RAMSize) h.(Japanese)
    h.(OldLicenseeCode) h.(VersionNumber) h.(GlobalChecksum).
Definition set_SGBSupport (v : bool) (h : CartridgeHeader) : CartridgeHeader :=
  Build_CartridgeHeader h.(Title) h.(ManufacturerCode) h.(CGBSupport) h.(NewLicenseeCode)
    v h.(Type_) h.(ROMSize) h.(RAMSize) h.(Japanese)
    h.(OldLicenseeCode) h.(VersionNumber) h.(GlobalChecksum).
Definition set_Type (v : Z) (h : CartridgeHeader) : CartridgeHeader :=
  Build_CartridgeHeader h.(Title) h.(ManufacturerCode) h.(CGBSupport) h.(NewLicenseeCode)
    h.(SGBSupport) v h.(ROMSize) h.(RAMSize) h.(Japanese)
    h.(OldLicenseeCode) h.(VersionNumber) h.(GlobalChecksum).
Definition set_ROMSize (v : Z) (h : CartridgeHeader) : CartridgeHeader :=
  Build_CartridgeHeader h.(Title) h.(ManufacturerCode) h.(CGBSupport) h.(NewLicenseeCode)
    h.(SGBSupport) h.(Type_) v h.(RAMSize) h.(Japanese)
    h.(OldLicenseeCode) h.(VersionNumber) h.(GlobalChecksum).
Definition set_RAMSize (v : Z) (h : CartridgeHeader) : CartridgeHeader :=
  Build_CartridgeHeader h.(Title) h.(ManufacturerCode) h.(CGBSupport) h.(NewLicenseeCode)
    h.(SGBSupport) h.(Type_) h.(ROMSize) v h.(Japanese)
    h.(OldLicenseeCode) h.(VersionNumber) h.(GlobalChecksum).
Definition set_Japanese (v : bool) (h : CartridgeHeader) : CartridgeHeader :=
  Build_CartridgeHeader h.(Title) h.(ManufacturerCode) h.(CGBSupport) h.(NewLicenseeCode)
    h.(SGBSupport) h.(Type_) h.(ROMSize) h.(RAMSize) v
    h.(OldLicenseeCode) h.(VersionNumber) h.(GlobalChecksum).
Definition set_OldLicenseeCode (v : Z) (h : CartridgeHeader) : CartridgeHeader :=
  Build_CartridgeHeader h.(Title) h.(ManufacturerCode) h.(CGBSupport) h.(NewLicenseeCode)
    h.(SGBSupport) h.(Type_) h.(ROMSize) h.(RAMSize) h.(Japanese)
    v h.(VersionNumber) h.(GlobalChecksum).
Definition set_VersionNumber (v : Z) (h : CartridgeHeader) : CartridgeHeader :=
  Build_CartridgeHeader h.(Title) h.(ManufacturerCode) h.(CGBSupport) h.(NewLicenseeCode)
    h.(SGBSupport) h.(Type_) h.(ROMSize) h.(RAMSize) h.(Japanese)
    h.(OldLicenseeCode) v h.(GlobalChecksum).
Definition set_GlobalChecksum (v : Z) (h : CartridgeHeader) : CartridgeHeader :=
  Build_CartridgeHeader h.(Title) h.(ManufacturerCode) h.(CGBSupport) h.(NewLicenseeCode)
    h.(SGBSupport) h.(Type_) h.(ROMSize) h.(RAMSize) h.(Japanese)
    h.(OldLicenseeCode) h.(VersionNumber) v.

Definition getROMSize (size : Z) : Z :=
  match size with
  | 0x00 => 2 * 16
  | 0x01 => 4 * 16
  | 0x02 => 8 * 16
  | 0x03 => 16 * 16
  | 0x04 => 32 * 16
  | 0x05 => 128 * 16
  | 0x06 => 256 * 16
  | 0x08 => 512 * 16
  | 0x52 => 72 * 16
  | 0x53 => 80 * 16
  | 0x54 => 96 * 16
  | _ => 0
  end.

Definition getRAMSize (size : Z) : Z :=
  match size with
  | 0x01 => 2
  | 0x02 => 8
  | 0x03 => 32
  | 0x04 => 128
  | 0x05 => 64
  | _ => 0
  end.

(** [for x := 0x34; x <= 0x4C; x++ { actualChecksum = actualChecksum - inp[x] - 1 }]
    entered at [x] with [n] iterations left; both subtractions are in [byte]. *)
Fixpoint checksum_loop (n : nat) (x : Z) (inp : list Z) (actualChecksum : Z) : go Z :=
  match n with
  | O => Return actualChecksum
  | S n =>
      b ← index inp x;
      checksum_loop n (x + 1) inp (uint8 (uint8 (actualChecksum - b) - 1))
  end.

(** [ParseHeader] returns the header after the call, then the error. *)
Definition ParseHeader (inp : list Z) (header : CartridgeHeader)
  : go (CartridgeHeader * option error) :=
  if negb (len inp =? 0x50) then Return (header, Some ErrHeaderLengthInvalid)
  else
    let header := set_Title (strings_TrimRight (slice inp 0x34 0x3F) 0x00) header in
    let header :=
      set_ManufacturerCode (strings_TrimRight (slice inp 0x3F 0x42) 0x00) header in
    cgbVal ← index inp 0x43;
    let header :=
      if cgbVal =? 0x80 then set_CGBSupport CgbSupported header
      else if cgbVal =? 0xC0 then set_CGBSupport CgbRequired header
      else set_CGBSupport CgbNotSupported header in
    let header := set_NewLicenseeCode (slice inp 0x44 0x45) header in
    sgb ← index inp 0x46;
    let header := set_SGBSupport (sgb =? 0x03) header in
    typ ← index inp 0x47;
    let header := set_Type typ header in
    rom ← index inp 0x48;
    let header := set_ROMSize (getROMSize rom) header in
    ram ← index inp 0x49;
    let header := set_RAMSize (getRAMSize ram) header in
    jap ← index inp 0x4A;
    let header := set_Japanese (jap =? 0x00) header in
    old ← index inp 0x4B;
    let header := set_OldLicenseeCode old header in
    ver ← index inp 0x4C;
    let header := set_VersionNumber ver header in
    glob ← BigEndian_Uint16 (slice inp 0x4E 0x50);
    let header := set_GlobalChecksum glob header in
    headerChecksum ← index inp 0x4D;
    actualChecksum ← checksum_loop (Z.to_nat (0x4C - 0x34 + 1)) 0x34 inp 0;
    if negb (headerChecksum =? actualChecksum)
    then Return (header, Some ErrHeaderChecksumInvalid)
    else Return (header, None).

(** The header checksum in the words of the specification: a running
    subtraction, accumulator = accumulator - byte - 1 on 8 bits, over the
    bytes at offsets 0x34 through 0x4C. *)
Definition header_checksum_spec (inp : list Z) : Z :=
  fold_left (fun acc b => (acc - b - 1) mod 2 ^ 8) (slice inp 0x34 0x4D) 0.

(** [func (v CartridgeType) String() string].  A string the parser does
    not compute is a Rocq string; [%X] prints a [uint8] in upper-case
    hexadecimal without padding. *)
Definition hex_digit (d : Z) : string :=
  match d with
  | 0 => "0" | 1 => "1" | 2 => "2" | 3 => "3" | 4 => "4" | 5 => "5" | 6 => "6"
  | 7 => "7" | 8 => "8" | 9 => "9" | 10 => "A" | 11 => "B" | 12 => "C"
  | 13 => "D" | 14 => "E" | _ => "F"
  end%string.

Definition fmt_X (v : Z) : string :=
  if v <? 16 then hex_digit v
  else (hex_digit (v / 16) +:+ hex_digit (v mod 16))%string.

Definition CartridgeType_String (v : Z) : string :=
  match v with
  | 0x00 => "ROMOnly"
  | 0x01 => "Mbc1"
  | 0x02 => "Mbc1Ram"
  | 0x03 => "Mbc1RamBattery"
  | 0x05 => "Mbc2"
  | 0x06 => "Mbc2Battery"
  | 0x08 => "ROMRAM"
  | 0x09 => "ROMRAMBattery"
  | 0x0B => "Mmm01"
  | 0x0C => "Mmm01RAM"
  | 0x0D => "Mmm01RAMBattery"
  | 0x0F => "Mbc3TimerBattery"
  | 0x10 => "Mbc3TimerRAMBattery"
  | 0x11 => "Mbc3"
  | 0x12 => "Mbc3Ram"
  | 0x13 => "Mbc3RamBattery"
  | 0x19 => "Mbc5"
  | 0x1A => "Mbc5Ram"
  | 0x1B => "Mbc5RamBattery"
  | 0x1C => "Mbc5Rumble"
  | 0x1D => "Mbc5RumbleRAM"
  | 0x1E => "Mbc5RumbleRAMBattery"
  | 0x20 => "Mbc6"
  | 0x22 => "Mbc7SensorRumbleRAMBattery"
  | 0xFC => "PocketCamera"
  | 0xFD => "BandaiTama5"
  | 0xFE => "Huc3"
  | 0xFF => "Huc1RamBattery"
  | _ => "Unknown(0x" +:+ fmt_X (uint8 v) +:+ "2)"
  end%string.

(** The [uint8] behind a [CgbSupport] constant ([iota]). *)
Definition CgbSupport_uint8 (v : CgbSupport) : Z :=
  match v with
  | CgbNotSupported => 0
  | CgbSupported => 1
  | CgbRequired => 2
  end.

(** [func (v CgbSupport) String() string] indexes an array of three names
    with the [uint8] value. *)
Definition CgbSupport_String (v : Z) : go string :=
  index ["NotSupported"; "Supported"; "Required"]%string v.

End gogb.

(* ===================================================================== *)
(** ** package main (the dump tool) *)
(* ===================================================================== *)

Module main.
Import Go.

(** The global checksum loop of [dumpRom]:
    [for idx, byt := range content { if idx != 0x014E && idx != 0x014F {
    actualChecksum += uint16(byt) } }], entered at index [idx]. *)
Fixpoint actualChecksum_loop (content : list Z) (idx : Z) (actualChecksum : Z) : Z :=
  match content with
  | [] => actualChecksum
  | byt :: content =>
      actualChecksum_loop content (idx + 1)
        (if negb (idx =? 0x014E) && negb (idx =? 0x014F)
         then uint16 (actualChecksum + byt)
         else actualChecksum)
  end.

End main.

(* ===================================================================== *)
(** ** The repository's tests (cpu/instructions_test.go), evaluated *)
(* ===================================================================== *)

Module Tests.
Import Go memory.
Import cpu.Z80Flags.

(** [createStack]: [sp = 0x00FF] on [NewRAM(0xFF)]. *)
Definition stack_sp : Z := 0x00FF.
Definition stack_mem : RAM := NewRAM 0xFF.

Example TestPush :
  exists mem, cpu.push 0xBEEF stack_sp stack_mem = Return (0xFD, mem, None) /\
              GetWord mem 0xFD = Return (0xBEEF, None).
Proof. eexists. split; vm_compute; reflexivity. Qed.

Example TestPushFailsWhenOutOfStackSpace :
  cpu.push 0xBEEF 0x00 stack_mem = Return (0x00, stack_mem, Some ErrStackOverflow).
Proof. vm_compute. reflexivity. Qed.

Example TestPop :
  exists mem, SetWord stack_mem 0x00FD 0xBEEF = Return (mem, None) /\
              cpu.pop 0x00FD mem = Return (0x00FF, (0xBEEF, None)).
Proof. eexists. split; vm_compute; reflexivity. Qed.

Example TestPopFailsWhenStackUnderflows :
  cpu.pop stack_sp stack_mem = Return (stack_sp, (0, Some ErrStackUnderflow)).
Proof. vm_compute. reflexivity. Qed.

Example TestAdd8AddsOperandToAd :
  fst (cpu.add8 40 2 cpu.FlagEmpty false) = 42 /\
  IsClear (snd (cpu.add8 40 2 cpu.FlagEmpty false)) cpu.FlagAddSub = true.
Proof. split; vm_compute; reflexivity. Qed.

Example TestAdcCarriesIn : fst (cpu.add8 0x01 1 cpu.FlagCarry true) = 3.
Proof. vm_compute. reflexivity. Qed.

Example TestAdd8SetsZeroFlagIfResultIsZero :
  fst (cpu.add8 0xFF 1 cpu.FlagEmpty false) = 0 /\
  IsSet (snd (cpu.add8 0xFF 1 cpu.FlagEmpty false)) cpu.FlagZero = true /\
  IsSet (snd (cpu.add8 0xFF 1 cpu.FlagEmpty false)) cpu.FlagCarry = true.
Proof. repeat split; vm_compute; reflexivity. Qed.

Example TestAdd8SetsCarryOutIfResultOverflows :
  fst (cpu.add8 0xFF 40 cpu.FlagEmpty false) = 39 /\
  IsSet (snd (cpu.add8 0xFF 40 cpu.FlagEmpty false)) cpu.FlagCarry = true.
Proof. split; vm_compute; reflexivity. Qed.

Example TestAdd8SetsHalfCarryIfLowNybbleOverflows :
  fst (cpu.add8 0x0A 0x0A cpu.FlagEmpty false) = 20 /\
  IsSet (snd (cpu.add8 0x0A 0x0A cpu.FlagEmpty false)) cpu.FlagHalfCarry = true.
Proof. split; vm_compute; reflexivity. Qed.

Example TestAdd16SetsCarryIfResultOverflows :
  fst (cpu.add16 0xFFFF 0x0002 cpu.FlagEmpty) = 0x0001 /\
  IsSet (snd (cpu.add16 0xFFFF 0x0002 cpu.FlagEmpty)) cpu.FlagCarry = true.
Proof. split; vm_compute; reflexivity. Qed.

Example TestAdd16SetsHalfCarryIfLowNybbleOfHighByteOverflows :
  fst (cpu.add16 0x0F00 0x0100 cpu.FlagEmpty) = 0x1000 /\
  IsSet (snd (cpu.add16 0x0F00 0x0100 cpu.FlagEmpty)) cpu.FlagHalfCarry = true.
Proof. split; vm_compute; reflexivity. Qed.

Example TestAnd :
  let f := Z.lor (Z.lor cpu.FlagAddSub cpu.FlagCarry) cpu.FlagZero in
  fst (cpu.and 0xAA 0xF0 f) = 0xA0 /\
  IsClear (snd (cpu.and 0xAA 0xF0 f)) cpu.FlagZero = true /\
  IsClear (snd (cpu.and 0xAA 0xF0 f)) cpu.FlagAddSub = true /\
  IsClear (snd (cpu.and 0xAA 0xF0 f)) cpu.FlagCarry = true /\
  IsSet (snd (cpu.and 0xAA 0xF0 f)) cpu.FlagHalfCarry = true.
Proof. cbv zeta. repeat split; vm_compute; reflexivity. Qed.

Example TestBitSetsZeroFlagIfBitIsNotSet :
  IsSet (cpu.bit 6 0xBF cpu.FlagEmpty) cpu.FlagZero = true.
Proof. vm_compute. reflexivity. Qed.

Example TestBitClearsZeroFlagIfBitIsSet :
  IsClear (cpu.bit 6 0x40 cpu.FlagZero) cpu.FlagZero = true.
Proof. vm_compute. reflexivity. Qed.

Example TestCallPushesPCValueToStack :
  exists mem, cpu.call 0xBEEF 0xFEED stack_sp stack_mem = Return (0xBEEF, 0xFD, mem, None) /\
              cpu.pop 0xFD mem = Return (0xFF, (0xFEED, None)).
Proof. eexists. split; vm_compute; reflexivity. Qed.

End Tests.

(* ===================================================================== *)
(** ** Facts about the Go fragment *)
(* ===================================================================== *)

Module GoFacts.
Import Go.

Lemma int_id (z : Z) : is_int z -> int z = z.
Proof.
  unfold is_int, int. intros Hz.
  rewrite Z.mod_small by lia. lia.
Qed.

Lemma uint8_id (z : Z) : is_uint8 z -> uint8 z = z.
Proof. unfold is_uint8, uint8. intros Hz. apply Z.mod_small. lia. Qed.

Lemma uint16_id (z : Z) : is_uint16 z -> uint16 z = z.
Proof. unfold is_uint16, uint16. intros Hz. apply Z.mod_small. lia. Qed.

Lemma uint8_range (z : Z) : is_uint8 (uint8 z).
Proof. unfold is_uint8, uint8. apply Z.mod_pos_bound. lia. Qed.

Lemma uint16_range (z : Z) : is_uint16 (uint16 z).
Proof. unfold is_uint16, uint16. apply Z.mod_pos_bound. lia. Qed.

Lemma index_negative {A : Type} (s : list A) (i : Z) : i < 0 -> index s i = Panic.
Proof. intros Hi. unfold index. destruct (Z.ltb_spec i 0); [reflexivity | lia]. Qed.

Lemma index_beyond {A : Type} (s : list A) (i : Z) : len s <= i -> index s i = Panic.
Proof.
  intros Hi. unfold index, len in *.
  destruct (Z.ltb_spec i 0); [reflexivity |].
  rewrite lookup_ge_None_2; [reflexivity | lia].
Qed.

Lemma index_in_range (s : list Z) (i : Z) :
  0 <= i < len s -> index s i = Return (s !!! Z.to_nat i).
Proof.
  intros Hi. unfold index, len in *.
  destruct (Z.ltb_spec i 0); [lia |].
  rewrite (list_lookup_lookup_total_lt s (Z.to_nat i)); [reflexivity | lia].
Qed.

Lemma store_in_range {A : Type} (s : list A) (i : Z) (v : A) :
  0 <= i < len s -> store s i v = Return (<[Z.to_nat i := v]> s).
Proof.
  intros Hi. unfold store.
  destruct (Z.ltb_spec i 0); [lia |].
  destruct (Z.leb_spec (len s) i); [lia | reflexivity].
Qed.

Lemma store_negative {A : Type} (s : list A) (i : Z) (v : A) :
  i < 0 -> store s i v = Panic.
Proof. intros Hi. unfold store. destruct (Z.ltb_spec i 0); [reflexivity | lia]. Qed.

Lemma len_insert {A : Type} (s : list A) (i : nat) (v : A) : len (<[i := v]> s) = len s.
Proof. unfold len. now rewrite length_insert. Qed.

End GoFacts.

(* ===================================================================== *)
(** ** Facts about package memory *)
(* ===================================================================== *)

Module MemoryFacts.
Import Go GoFacts memory.

Section RAM.
Variable r : RAM.
Variable addr : Z.

(** *** Byte access *)

Lemma RAM_GetByte_out :
  len r.(data) <= addr -> RAM_GetByte r addr = Return (0, Some ErrAddressOutOfRange).
Proof.
  intros Ha. unfold RAM_GetByte.
  destruct (Z.geb_spec addr (len r.(data))); [reflexivity | lia].
Qed.

Lemma RAM_GetByte_in :
  0 <= addr < len r.(data) ->
  RAM_GetByte r addr = Return (r.(data) !!! Z.to_nat addr, None).
Proof.
  intros Ha. unfold RAM_GetByte.
  destruct (Z.geb_spec addr (len r.(data))); [lia |].
  now rewrite index_in_range.
Qed.

Lemma RAM_GetByte_negative : addr < 0 -> RAM_GetByte r addr = Panic.
Proof.
  intros Ha. unfold RAM_GetByte.
  destruct (Z.geb_spec addr (len r.(data))); [unfold len in *; lia |].
  now rewrite index_negative.
Qed.

Lemma RAM_SetByte_out (val : Z) :
  len r.(data) <= addr -> RAM_SetByte r addr val = Return (r, Some ErrAddressOutOfRange).
Proof.
  intros Ha. unfold RAM_SetByte.
  destruct (Z.geb_spec addr (len r.(data))); [reflexivity | lia].
Qed.

Lemma RAM_SetByte_in (val : Z) :
  0 <= addr < len r.(data) ->
  RAM_SetByte r addr val = Return ({| data := <[Z.to_nat addr := val]> r.(data) |}, None).
Proof.
  intros Ha. unfold RAM_SetByte.
  destruct (Z.geb_spec addr (len r.(data))); [lia |].
  now rewrite store_in_range.
Qed.

Lemma RAM_SetByte_negative (val : Z) : addr < 0 -> RAM_SetByte r addr val = Panic.
Proof.
  intros Ha. unfold RAM_SetByte.
  destruct (Z.geb_spec addr (len r.(data))); [unfold len in *; lia |].
  now rewrite store_negative.
Qed.

(** *** Word access; [addr + 1] is computed in [int]. *)

Lemma RAM_GetWord_out :
  is_int (addr + 1) -> len r.(data) <= addr + 1 ->
  RAM_GetWord r addr = Return (0, Some ErrAddressOutOfRange).
Proof.
  intros Hi Ha. unfold RAM_GetWord. rewrite int_id by assumption.
  destruct (Z.geb_spec (addr + 1) (len r.(data))); [reflexivity | lia].
Qed.

Lemma RAM_GetWord_in :
  is_int (addr + 1) -> 0 <= addr -> addr + 1 < len r.(data) ->
  RAM_GetWord r addr =
    Return (Z.lor (uint16 (Z.shiftl (r.(data) !!! Z.to_nat addr) 8))
                  (r.(data) !!! Z.to_nat (addr + 1)), None).
Proof.
  intros Hi H0 Ha. unfold RAM_GetWord. rewrite int_id by assumption.
  destruct (Z.geb_spec (addr + 1) (len r.(data))); [lia |].
  rewrite !index_in_range by lia. reflexivity.
Qed.

Lemma RAM_GetWord_negative :
  is_int (addr + 1) -> addr < 0 -> 0 < len r.(data) -> RAM_GetWord r addr = Panic.
Proof.
  intros Hi Ha Hl. unfold RAM_GetWord. rewrite int_id by assumption.
  destruct (Z.geb_spec (addr + 1) (len r.(data))); [lia |].
  now rewrite (index_negative _ addr).
Qed.

Lemma RAM_SetWord_out (val : Z) :
  is_int (addr + 1) -> len r.(data) <= addr + 1 ->
  RAM_SetWord r addr val = Return (r, Some ErrAddressOutOfRange).
Proof.
  intros Hi Ha. unfold RAM_SetWord. rewrite int_id by assumption.
  destruct (Z.geb_spec (addr + 1) (len r.(data))); [reflexivity | lia].
Qed.

Lemma RAM_SetWord_in (val : Z) :
  is_int (addr + 1) -> 0 <= addr -> addr + 1 < len r.(data) ->
  RAM_SetWord r addr val =
    Return ({| data := <[Z.to_nat (addr + 1) := uint8 (Z.land val 0x00FF)]>
                         (<[Z.to_nat addr := uint8 (Z.shiftr (Z.land val 0xFF00) 8)]>
                            r.(data)) |}, None).
Proof.
  intros Hi H0 Ha. unfold RAM_SetWord. rewrite int_id by assumption.
  destruct (Z.geb_spec (addr + 1) (len r.(data))); [lia |].
  rewrite store_in_range by lia. cbn.
  rewrite store_in_range by (rewrite len_insert; lia). reflexivity.
Qed.

Lemma RAM_SetWord_negative (val : Z) :
  is_int (addr + 1) -> addr < 0 -> 0 < len r.(data) -> RAM_SetWord r addr val = Panic.
Proof.
  intros Hi Ha Hl. unfold RAM_SetWord. rewrite int_id by assumption.
  destruct (Z.geb_spec (addr + 1) (len r.(data))); [lia |].
  now rewrite store_negative.
Qed.

End RAM.

(** The word written by [SetWord] is the word [GetWord] reads back. *)
Lemma word_of_bytes (val : Z) :
  is_uint16 val ->
  Z.lor (uint16 (Z.shiftl (uint8 (Z.shiftr (Z.land val 0xFF00) 8)) 8))
        (uint8 (Z.land val 0x00FF)) = val.
Proof.
  unfold is_uint16, uint16, uint8. intros Hv.
  change 0xFF00 with (Z.shiftl (Z.ones 8) 8). change 0x00FF with (Z.ones 8).
  rewrite <- !Z.land_ones by lia.
  apply Z.bits_inj'. intros n Hn.
  rewrite Z.lor_spec, !Z.land_spec.
  destruct (Z.ltb_spec n 8) as [Hlt | Hge].
  - rewrite Z.shiftl_spec_low by lia. rewrite !Z.ones_spec_low by lia.
    cbn. now rewrite !andb_true_r.
  - rewrite (Z.ones_spec_high 8 n) by lia. rewrite !andb_false_r, orb_false_r.
    rewrite Z.shiftl_spec by lia. rewrite !Z.land_spec.
    rewrite Z.shiftr_spec by lia. rewrite Z.land_spec.
    rewrite Z.shiftl_spec by lia.
    replace (n - 8 + 8) with n by lia.
    destruct (Z.ltb_spec n 16) as [Hlt | Hge'].
    + rewrite !Z.ones_spec_low by lia. now rewrite !andb_true_r.
    + rewrite (Z.ones_spec_high 16 n) by lia. rewrite andb_false_r.
      symmetry. apply (Z.bits_above_log2 val n); [lia |].
      destruct (Z.eq_dec val 0) as [-> | Hnz]; [cbn; lia |].
      assert (Z.log2 val < 16) by (apply Z.log2_lt_pow2; lia). lia.
Qed.

Lemma RAM_SetWord_GetWord (r r' : RAM) (addr val : Z) :
  is_uint16 val -> is_int (addr + 1) ->
  RAM_SetWord r addr val = Return (r', None) ->
  RAM_GetWord r' addr = Return (val, None).
Proof.
  intros Hv Hi. unfold RAM_SetWord. rewrite int_id by assumption.
  destruct (Z.geb_spec (addr + 1) (len r.(data))) as [| Hlt]; [discriminate |].
  destruct (Z.ltb_spec addr 0) as [Hneg | Hnn].
  { now rewrite store_negative. }
  rewrite store_in_range by lia. cbn.
  rewrite store_in_range by (rewrite len_insert; lia). cbn.
  intros [= <-].
  rewrite RAM_GetWord_in by (cbn; rewrite ?len_insert; solve [assumption | lia]).
  cbn [data]. f_equal. f_equal.
  rewrite list_lookup_total_insert_eq by (rewrite length_insert; unfold len in *; lia).
  rewrite list_lookup_total_insert_ne by lia.
  rewrite list_lookup_total_insert_eq by (unfold len in *; lia).
  now apply word_of_bytes.
Qed.

(** From address 0 upwards the four operations are bounds-checked: out of
    range they return [ErrAddressOutOfRange] and leave the memory as it was,
    in range they succeed. *)
Lemma RAM_bounds_checked_from_zero (r : RAM) (addr val : Z) :
  is_int (addr + 1) -> 0 <= addr ->
  (len r.(data) <= addr ->
     GetByte r addr = Return (0, Some ErrAddressOutOfRange) /\
     SetByte r addr val = Return (r, Some ErrAddressOutOfRange)) /\
  (addr < len r.(data) ->
     exists b r', GetByte r addr = Return (b, None) /\
                  SetByte r addr val = Return (r', None)) /\
  (len r.(data) <= addr + 1 ->
     GetWord r addr = Return (0, Some ErrAddressOutOfRange) /\
     SetWord r addr val = Return (r, Some ErrAddressOutOfRange)) /\
  (addr + 1 < len r.(data) ->
     exists w r', GetWord r addr = Return (w, None) /\
                  SetWord r addr val = Return (r', None)).
Proof.
  intros Hi H0. cbn [GetByte SetByte GetWord SetWord RAM_MMU].
  split; [| split; [| split]]; intros Ha.
  - split; [now apply RAM_GetByte_out | now apply RAM_SetByte_out].
  - eexists _, _. rewrite RAM_GetByte_in, RAM_SetByte_in by lia. split; reflexivity.
  - split; [now apply RAM_GetWord_out | now apply RAM_SetWord_out].
  - eexists _, _. rewrite RAM_GetWord_in, RAM_SetWord_in by (assumption || lia).
    split; reflexivity.
Qed.

(** C2 (the code departs from the claim): a negative address passes the
    only test the four operations make, [addr >= len(r.data)] (for words
    [addr+1 >= len(r.data)]), and the slice access that follows panics; the
    operations do not return [ErrAddressOutOfRange].  Evaluated at address
    -1 on [NewRAM(4)]; for words the same happens at the largest [int],
    where [addr+1] wraps to the smallest one. *)
Theorem RAM_negative_address_panics :
  let r := NewRAM 4 in
  GetByte r (-1) = Panic /\
  GetWord r (-1) = Panic /\
  SetByte r (-1) 0xAB = Panic /\
  SetWord r (-1) 0xABCD = Panic /\
  GetWord r (2 ^ 63 - 1) = Panic /\
  SetWord r (2 ^ 63 - 1) 0xABCD = Panic.
Proof. cbv zeta. repeat split; vm_compute; reflexivity. Qed.

End MemoryFacts.

(* ===================================================================== *)
(** ** Facts about package cpu: the stack and [call] *)
(* ===================================================================== *)

Module StackFacts.
Import Go GoFacts memory MemoryFacts.

(** [push] on a [RAM], case by case. *)
Lemma push_cases (val sp : Z) (mem : RAM) :
  is_uint16 sp ->
  (sp <= 2 /\ cpu.push val sp mem = Return (sp, mem, Some ErrStackOverflow)) \/
  (2 < sp /\ len mem.(data) <= sp - 1 /\
     cpu.push val sp mem = Return (sp - 2, mem, Some ErrAddressOutOfRange)) \/
  (2 < sp /\ sp - 1 < len mem.(data) /\
     exists mem', RAM_SetWord mem (sp - 2) val = Return (mem', None) /\
                  cpu.push val sp mem = Return (sp - 2, mem', None)).
Proof.
  unfold is_uint16. intros Hsp. unfold cpu.push.
  destruct (Z.leb_spec sp 2) as [Hle | Hgt]; [left; split; [lia | reflexivity] | right].
  cbv zeta. rewrite uint16_id by (unfold is_uint16; lia).
  cbn [SetWord RAM_MMU].
  assert (Hi : is_int (sp - 2 + 1)) by (unfold is_int; lia).
  destruct (Z.le_gt_cases (len mem.(data)) (sp - 1)) as [Hout | Hin].
  - left. rewrite RAM_SetWord_out by (assumption || lia).
    repeat split; (lia || reflexivity).
  - right. rewrite RAM_SetWord_in by (assumption || lia).
    repeat split; try lia. eexists. split; reflexivity.
Qed.

(** [pop] on a [RAM], case by case. *)
Lemma pop_cases (sp : Z) (mem : RAM) :
  is_uint16 sp -> len mem.(data) < 2 ^ 16 ->
  (len mem.(data) <= sp + 1 /\
     GetWord mem sp = Return (0, Some ErrAddressOutOfRange) /\
     cpu.pop sp mem = Return (sp, (0, Some ErrStackUnderflow))) \/
  (sp + 1 < len mem.(data) /\
     exists w, GetWord mem sp = Return (w, None) /\
               cpu.pop sp mem = Return (sp + 2, (w, None))).
Proof.
  unfold is_uint16. intros Hsp Hlen. unfold cpu.pop.
  cbn [GetWord RAM_MMU].
  assert (Hi : is_int (sp + 1)) by (unfold is_int; lia).
  destruct (Z.le_gt_cases (len mem.(data)) (sp + 1)) as [Hout | Hin].
  - left. rewrite RAM_GetWord_out by assumption.
    repeat split; (lia || reflexivity).
  - right. rewrite RAM_GetWord_in by (assumption || lia).
    split; [lia |]. eexists. split; [reflexivity |].
    cbn. now rewrite uint16_id by (unfold is_uint16; lia).
Qed.

(** After [SetWord] has written [v] two bytes below [sp], [pop] from there
    returns [v] and moves the stack pointer to [sp]. *)
Lemma pop_after_SetWord (v sp : Z) (mem mem' : RAM) :
  is_uint16 v -> is_uint16 sp -> 2 < sp ->
  RAM_SetWord mem (sp - 2) v = Return (mem', None) ->
  cpu.pop (sp - 2) mem' = Return (sp, (v, None)).
Proof.
  unfold is_uint16 at 2. intros Hv Hsp Hgt Hset.
  assert (Hi : is_int (sp - 2 + 1)) by (unfold is_int; lia).
  unfold cpu.pop. cbn [GetWord RAM_MMU].
  rewrite (RAM_SetWord_GetWord mem mem' (sp - 2) v Hv Hi Hset). cbn.
  replace (sp - 2 + 2) with sp by lia.
  now rewrite uint16_id.
Qed.

(** C1, as amended: for every 16-bit stack pointer and every RAM, [push]
    returns [ErrStackOverflow] if and only if [SP <= 2] at call time, and a
    push that returns [ErrStackOverflow] leaves SP (and the memory)
    unchanged. *)
Theorem push_overflow_iff (val sp : Z) (mem : RAM) :
  is_uint16 sp ->
  exists sp' mem' err,
    cpu.push val sp mem = Return (sp', mem', err) /\
    (err = Some ErrStackOverflow <-> sp <= 2) /\
    (err = Some ErrStackOverflow -> sp' = sp /\ mem' = mem).
Proof.
  intros Hsp.
  destruct (push_cases val sp mem Hsp)
    as [[Hle E] | [(Hgt & _ & E) | (Hgt & _ & m & _ & E)]];
    rewrite E; eexists _, _, _; (split; [reflexivity |]); split;
    try (split; [intros; lia || discriminate | intros; reflexivity || lia]);
    try (intros; split; reflexivity); try discriminate.
Qed.

Lemma push_overflow_iff_witness :
  exists sp' mem' err,
    cpu.push 0xBEEF 0x00 (NewRAM 0xFF) = Return (sp', mem', err) /\
    (err = Some ErrStackOverflow <-> 0x00 <= 2) /\
    (err = Some ErrStackOverflow -> sp' = 0x00 /\ mem' = NewRAM 0xFF).
Proof.
  apply (push_overflow_iff 0xBEEF 0x00 (NewRAM 0xFF)).
  unfold is_uint16. lia.
Defined.

(** C1, as stated, fails: with SP = 0x100 on [NewRAM(0xFF)] the overflow
    test passes, SP is decremented to 0xFE, and the write of the word at
    0xFE, 0xFF is out of range: [push] fails with SP changed. *)
Lemma push_failure_moves_SP :
  cpu.push 0xBEEF 0x100 (NewRAM 0xFF)
    = Return (0xFE, NewRAM 0xFF, Some ErrAddressOutOfRange) /\
  ~ (forall (val sp : Z) (mem : RAM) sp' mem' e,
       is_uint16 val -> is_uint16 sp ->
       cpu.push val sp mem = Return (sp', mem', Some e) -> sp' = sp).
Proof.
  assert (E : cpu.push 0xBEEF 0x100 (NewRAM 0xFF)
              = Return (0xFE, NewRAM 0xFF, Some ErrAddressOutOfRange))
    by (vm_compute; reflexivity).
  split; [exact E |].
  intros Hall.
  assert (Hsp : 0xFE = 0x100); [| discriminate Hsp].
  apply (Hall 0xBEEF 0x100 (NewRAM 0xFF) 0xFE (NewRAM 0xFF) ErrAddressOutOfRange);
    [unfold is_uint16; lia | unfold is_uint16; lia | exact E].
Qed.

(** C5: for every 16-bit SP and every RAM (whose size is a [uint16]), [pop]
    reads the word at SP; if that read is out of range, [pop] returns
    [ErrStackUnderflow] with the value 0 and SP unchanged; otherwise it
    returns the word read and SP incremented by 2.  [pop] returns
    [ErrStackUnderflow] iff the read is out of range, which is when the two
    bytes at SP and SP+1 are not both in the store. *)
Theorem pop_underflow_iff (sp : Z) (mem : RAM) :
  is_uint16 sp -> len mem.(data) < 2 ^ 16 ->
  exists w rerr sp' v err,
    GetWord mem sp = Return (w, rerr) /\
    cpu.pop sp mem = Return (sp', (v, err)) /\
    (rerr = Some ErrAddressOutOfRange <-> len mem.(data) <= sp + 1) /\
    (rerr = Some ErrAddressOutOfRange ->
       sp' = sp /\ v = 0 /\ err = Some ErrStackUnderflow) /\
    (rerr <> Some ErrAddressOutOfRange ->
       sp' = sp + 2 /\ v = w /\ err = None) /\
    (err = Some ErrStackUnderflow <-> rerr = Some ErrAddressOutOfRange).
Proof.
  intros Hsp Hlen.
  destruct (pop_cases sp mem Hsp Hlen) as [(Hout & Eg & Ep) | (Hin & w & Eg & Ep)];
    rewrite Eg, Ep; eexists _, _, _, _, _; (split; [reflexivity |]);
    (split; [reflexivity |]).
  - repeat split; intros; (reflexivity || lia || congruence).
  - split; [split; [discriminate | lia] |].
    split; [discriminate |].
    split; [intros; repeat split; reflexivity |].
    split; discriminate.
Qed.

Lemma pop_underflow_iff_witness :
  exists w rerr sp' v err,
    GetWord (NewRAM 0xFF) 0x00FF = Return (w, rerr) /\
    cpu.pop 0x00FF (NewRAM 0xFF) = Return (sp', (v, err)) /\
    (rerr = Some ErrAddressOutOfRange <-> len (NewRAM 0xFF).(data) <= 0x00FF + 1) /\
    (rerr = Some ErrAddressOutOfRange ->
       sp' = 0x00FF /\ v = 0 /\ err = Some ErrStackUnderflow) /\
    (rerr <> Some ErrAddressOutOfRange ->
       sp' = 0x00FF + 2 /\ v = w /\ err = None) /\
    (err = Some ErrStackUnderflow <-> rerr = Some ErrAddressOutOfRange).
Proof.
  apply (pop_underflow_iff 0x00FF (NewRAM 0xFF)).
  - unfold is_uint16. lia.
  - vm_compute. reflexivity.
Defined.

(** [call] over any memory: the result of the push decides. *)
Lemma call_after_push {M : Type} `{MMU M} (addr pc sp : Z) (mem : M)
    (sp' : Z) (mem' : M) (err : option error) :
  cpu.push pc sp mem = Return (sp', mem', err) ->
  cpu.call addr pc sp mem =
    Return (match err with Some _ => pc | None => addr end, sp', mem', err).
Proof. intros E. unfold cpu.call. rewrite E. now destruct err. Qed.

(** C6: for every address, every 16-bit PC and SP and every RAM, [call]
    pushes the current PC.  The push succeeds exactly when [2 < SP] and
    the two bytes below SP are in the RAM; if it returns an error, [call]
    returns that same error and PC is unmodified; if it succeeds, the old
    PC is the word on top of the stack, two bytes below the old SP, PC
    becomes the address, and a [pop] that follows returns the old PC and
    restores SP. *)
Theorem call_pushes_PC (addr pc sp : Z) (mem : RAM) :
  is_uint16 pc -> is_uint16 sp ->
  exists sp' mem' err,
    cpu.push pc sp mem = Return (sp', mem', err) /\
    (err = None <-> 2 < sp /\ sp - 1 < len mem.(data)) /\
    (forall e, err = Some e ->
       cpu.call addr pc sp mem = Return (pc, sp', mem', Some e)) /\
    (err = None ->
       sp' = sp - 2 /\
       GetWord mem' sp' = Return (pc, None) /\
       cpu.call addr pc sp mem = Return (addr, sp', mem', None) /\
       cpu.pop sp' mem' = Return (sp, (pc, None))).
Proof.
  intros Hpc Hsp.
  destruct (push_cases pc sp mem Hsp)
    as [[Hle E] | [(Hgt & Hout & E) | (Hgt & Hin & m & Hset & E)]];
    eexists _, _, _; (split; [exact E |]);
    rewrite (call_after_push addr pc sp mem _ _ _ E).
  - split; [split; [discriminate | lia] |].
    split; [intros e [= <-]; reflexivity | discriminate].
  - split; [split; [discriminate | lia] |].
    split; [intros e [= <-]; reflexivity | discriminate].
  - split; [split; [intros _; lia | reflexivity] |].
    split; [discriminate |]. intros _.
    assert (Hi : is_int (sp - 2 + 1)) by (unfold is_uint16 in Hsp; unfold is_int; lia).
    split; [reflexivity |].
    split; [cbn [GetWord RAM_MMU]; now apply (RAM_SetWord_GetWord mem m (sp - 2) pc) |].
    split; [reflexivity |].
    now apply (pop_after_SetWord pc sp mem m).
Qed.

Lemma call_pushes_PC_witness :
  cpu.call 0xBEEF 0xFEED 5 (NewRAM 6)
    = Return (0xBEEF, 3, {| data := [0; 0; 0; 0xFE; 0xED; 0] |}, None) /\
  GetWord {| data := [0; 0; 0; 0xFE; 0xED; 0] |} 3 = Return (0xFEED, None) /\
  cpu.pop 3 {| data := [0; 0; 0; 0xFE; 0xED; 0] |} = Return (5, (0xFEED, None)).
Proof.
  destruct (call_pushes_PC 0xBEEF 0xFEED 5 (NewRAM 6))
    as (sp' & mem' & err & Hpush & Hiff & _ & Hok).
  - unfold is_uint16. lia.
  - unfold is_uint16. lia.
  - assert (Herr : err = None)
      by (apply Hiff; split; [lia | vm_compute; reflexivity]).
    destruct (Hok Herr) as (_ & Hget & Hcall & Hpop).
    subst err. vm_compute in Hpush. injection Hpush as <- <-.
    split; [exact Hcall | split; [exact Hget | exact Hpop]].
Defined.

(** C7: for every 16-bit value [v] and every 16-bit SP for which
    [push(v)] succeeds, the [pop] that follows returns [v] and restores
    SP to its value before the push. *)
Theorem push_pop_roundtrip (v sp : Z) (mem : RAM) (sp' : Z) (mem' : RAM) :
  is_uint16 v -> is_uint16 sp ->
  cpu.push v sp mem = Return (sp', mem', None) ->
  cpu.pop sp' mem' = Return (sp, (v, None)).
Proof.
  intros Hv Hsp Hpush.
  destruct (push_cases v sp mem Hsp)
    as [[_ E] | [(_ & _ & E) | (Hgt & _ & m & Hset & E)]];
    rewrite E in Hpush; try discriminate.
  injection Hpush as <- <-.
  now apply (pop_after_SetWord v sp mem m).
Qed.

Lemma push_pop_roundtrip_witness :
  cpu.pop 3 {| data := [0; 0; 0; 0xBE; 0xEF; 0] |} = Return (5, (0xBEEF, None)).
Proof.
  apply (push_pop_roundtrip 0xBEEF 5 (NewRAM 6)).
  - unfold is_uint16. lia.
  - unfold is_uint16. lia.
  - vm_compute. reflexivity.
Defined.

End StackFacts.

(* ===================================================================== *)
(** ** Facts about package cpu: the flags register *)
(* ===================================================================== *)

Module FlagFacts.
Import Go GoFacts.
Import cpu.Z80Flags.

(** Each named flag is one bit of the high nibble. *)
Lemma flag_values :
  cpu.FlagCarry = 2 ^ 4 /\ cpu.FlagHalfCarry = 2 ^ 5 /\
  cpu.FlagAddSub = 2 ^ 6 /\ cpu.FlagZero = 2 ^ 7.
Proof. repeat split; reflexivity. Qed.

Section OneBit.
Variable f : Z.
Variable k : Z.
Hypothesis Hk : 0 <= k < 8.

Lemma land_pow2 : Z.land f (2 ^ k) = if Z.testbit f k then 2 ^ k else 0.
Proof.
  apply Z.bits_inj'. intros n Hn.
  rewrite Z.land_spec, Z.pow2_bits_eqb by lia.
  destruct (Z.eqb_spec k n) as [<- | Hne].
  - destruct (Z.testbit f k).
    + now rewrite Z.pow2_bits_true by lia.
    + now rewrite Z.bits_0.
  - rewrite andb_false_r.
    destruct (Z.testbit f k).
    + now rewrite Z.pow2_bits_false by lia.
    + now rewrite Z.bits_0.
Qed.

Lemma IsSet_testbit : IsSet f (2 ^ k) = Z.testbit f k.
Proof.
  unfold IsSet. rewrite land_pow2.
  destruct (Z.testbit f k); [| reflexivity].
  assert (0 < 2 ^ k) by (apply Z.pow_pos_nonneg; lia).
  destruct (Z.eqb_spec (2 ^ k) 0); [lia | reflexivity].
Qed.

Lemma IsClear_testbit : IsClear f (2 ^ k) = negb (Z.testbit f k).
Proof.
  pose proof IsSet_testbit as E. unfold IsSet in E. unfold IsClear.
  rewrite <- E. now rewrite negb_involutive.
Qed.

Lemma testbit_Set (j : Z) :
  0 <= j -> Z.testbit (Set_ f (2 ^ k)) j = Z.testbit f j || (k =? j).
Proof. intros Hj. unfold Set_. now rewrite Z.lor_spec, Z.pow2_bits_eqb by lia. Qed.

Lemma testbit_Clear (j : Z) :
  0 <= j < 8 -> Z.testbit (Clear f (2 ^ k)) j = Z.testbit f j && negb (k =? j).
Proof.
  intros Hj. unfold Clear. change 0xFF with (Z.ones 8).
  rewrite Z.land_spec, Z.lxor_spec, Z.pow2_bits_eqb by lia.
  rewrite Z.ones_spec_low by lia. now rewrite xorb_true_r.
Qed.

Lemma testbit_SetIf (c : bool) (j : Z) :
  0 <= j < 8 ->
  Z.testbit (SetIf f c (2 ^ k)) j = if k =? j then c else Z.testbit f j.
Proof.
  intros Hj. unfold SetIf. destruct c.
  - rewrite testbit_Set by lia. destruct (k =? j); [apply orb_true_r | apply orb_false_r].
  - rewrite testbit_Clear by lia. destruct (k =? j); [apply andb_false_r | apply andb_true_r].
Qed.

(** Writing a flag of the high nibble leaves the low nibble as it was. *)
Lemma low_nibble_SetIf (c : bool) :
  4 <= k -> Z.land (SetIf f c (2 ^ k)) 0x0F = Z.land f 0x0F.
Proof.
  intros H4. change 0x0F with (Z.ones 4).
  apply Z.bits_inj'. intros n Hn. rewrite !Z.land_spec.
  destruct (Z.ltb_spec n 4) as [Hlt | Hge].
  - rewrite testbit_SetIf by lia.
    destruct (Z.eqb_spec k n); [lia | reflexivity].
  - rewrite Z.ones_spec_high by lia. now rewrite !andb_false_r.
Qed.

End OneBit.

Lemma low_nibble_Clear (f k : Z) :
  4 <= k < 8 -> Z.land (Clear f (2 ^ k)) 0x0F = Z.land f 0x0F.
Proof. intros Hk. apply (low_nibble_SetIf f k ltac:(lia) false). lia. Qed.

Lemma low_nibble_Set (f k : Z) :
  4 <= k < 8 -> Z.land (Set_ f (2 ^ k)) 0x0F = Z.land f 0x0F.
Proof. intros Hk. apply (low_nibble_SetIf f k ltac:(lia) true). lia. Qed.

(** Reading one named flag after a write to a named flag. *)
Lemma IsSet_SetIf (f : Z) (c : bool) (k j : Z) :
  0 <= k < 8 -> 0 <= j < 8 ->
  IsSet (SetIf f c (2 ^ k)) (2 ^ j) = if k =? j then c else IsSet f (2 ^ j).
Proof.
  intros Hk Hj. rewrite !IsSet_testbit by lia. now apply testbit_SetIf.
Qed.

Lemma IsSet_Clear (f k j : Z) :
  0 <= k < 8 -> 0 <= j < 8 ->
  IsSet (Clear f (2 ^ k)) (2 ^ j) = if k =? j then false else IsSet f (2 ^ j).
Proof. intros Hk Hj. now apply (IsSet_SetIf f false). Qed.

Lemma IsSet_Set (f k j : Z) :
  0 <= k < 8 -> 0 <= j < 8 ->
  IsSet (Set_ f (2 ^ k)) (2 ^ j) = if k =? j then true else IsSet f (2 ^ j).
Proof. intros Hk Hj. now apply (IsSet_SetIf f true). Qed.

Lemma IsClear_IsSet (f flag : Z) : IsClear f flag = negb (IsSet f flag).
Proof. unfold IsClear, IsSet. now rewrite negb_involutive. Qed.

End FlagFacts.

(* ===================================================================== *)
(** ** Facts about package cpu: the arithmetic primitives *)
(* ===================================================================== *)

Module ArithFacts.
Import Go GoFacts FlagFacts.
Import cpu.Z80Flags.

Lemma land_low_bits (z n : Z) : 0 <= n -> Z.land z (Z.ones n) = z mod 2 ^ n.
Proof. intros Hn. now apply Z.land_ones. Qed.

Lemma gtb_true_iff (a b : Z) : (a >? b) = true <-> a > b.
Proof. rewrite Z.gtb_ltb, Z.ltb_lt. lia. Qed.


(** Rewrites the readings of the named flags after a chain of writes. *)
Ltac read_flags :=
  change cpu.FlagCarry with (2 ^ 4); change cpu.FlagHalfCarry with (2 ^ 5);
  change cpu.FlagAddSub with (2 ^ 6); change cpu.FlagZero with (2 ^ 7);
  rewrite ?IsClear_IsSet;
  repeat first [ rewrite IsSet_SetIf by lia
               | rewrite IsSet_Clear by lia
               | rewrite IsSet_Set by lia ];
  cbn [Z.eqb Pos.eqb negb].

(** Same, for the low nibble. *)
Ltac read_low_nibble :=
  change cpu.FlagCarry with (2 ^ 4); change cpu.FlagHalfCarry with (2 ^ 5);
  change cpu.FlagAddSub with (2 ^ 6); change cpu.FlagZero with (2 ^ 7);
  repeat first [ rewrite low_nibble_SetIf by lia
               | rewrite low_nibble_Clear by lia
               | rewrite low_nibble_Set by lia ].

(** [add8] in closed form: [r] is the right operand after the carry-in. *)
Lemma add8_closed_form (left right f : Z) (withCarry : bool) (r : Z) :
  is_uint8 left -> is_uint8 right ->
  r = (if withCarry && IsSet f cpu.FlagCarry then (right + 1) mod 2 ^ 8 else right) ->
  let left' := fst (cpu.add8 left right f withCarry) in
  let f' := snd (cpu.add8 left right f withCarry) in
  left' = (left + r) mod 2 ^ 8 /\
  IsSet f' cpu.FlagCarry = (left + r >? 0xFF) /\
  IsSet f' cpu.FlagAddSub = false /\
  IsSet f' cpu.FlagZero = ((left + r) mod 2 ^ 8 =? 0) /\
  IsSet f' cpu.FlagHalfCarry = (left mod 2 ^ 4 + r mod 2 ^ 4 >? 0xF).
Proof.
  intros Hl Hr Er. unfold cpu.add8. cbv zeta.
  fold (uint8 (right + 1)) in Er. rewrite <- Er. cbn [fst snd].
  assert (Hr' : is_uint8 r).
  { rewrite Er. destruct (withCarry && _); [apply uint8_range | assumption]. }
  unfold is_uint8 in Hl, Hr'.
  rewrite int_id by (unfold is_int; lia).
  change 0xFF with (Z.ones 8). change 0x0F with (Z.ones 4).
  rewrite !land_low_bits by lia.
  pose proof (Z.mod_pos_bound (left + r) (2 ^ 8) ltac:(lia)) as Hs.
  pose proof (Z.mod_pos_bound left (2 ^ 4) ltac:(lia)) as Hln.
  pose proof (Z.mod_pos_bound r (2 ^ 4) ltac:(lia)) as Hrn.
  rewrite (Z.mod_small ((left + r) mod 2 ^ 8)) by lia.
  rewrite (uint8_id ((left + r) mod 2 ^ 8)) by (unfold is_uint8; lia).
  rewrite (uint8_id (r mod 2 ^ 4 + left mod 2 ^ 4)) by (unfold is_uint8; lia).
  rewrite (Z.add_comm (r mod 2 ^ 4)).
  split; [reflexivity |].
  read_flags. repeat split; reflexivity.
Qed.

(** [add16] in closed form. *)
Lemma add16_closed_form (left right f : Z) :
  is_uint16 left -> is_uint16 right ->
  let left' := fst (cpu.add16 left right f) in
  let f' := snd (cpu.add16 left right f) in
  left' = (left + right) mod 2 ^ 16 /\
  IsSet f' cpu.FlagCarry = (left + right >? 0xFFFF) /\
  IsSet f' cpu.FlagAddSub = false /\
  IsSet f' cpu.FlagZero = IsSet f cpu.FlagZero /\
  IsSet f' cpu.FlagHalfCarry = (left mod 2 ^ 12 + right mod 2 ^ 12 >? 0xFFF).
Proof.
  unfold is_uint16. intros Hl Hr. unfold cpu.add16. cbv zeta. cbn [fst snd].
  rewrite int_id by (unfold is_int; lia).
  change 0xFFFF with (Z.ones 16). change 0xFFF with (Z.ones 12).
  rewrite !land_low_bits by lia.
  pose proof (Z.mod_pos_bound (left + right) (2 ^ 16) ltac:(lia)) as Hs.
  pose proof (Z.mod_pos_bound left (2 ^ 12) ltac:(lia)) as Hln.
  pose proof (Z.mod_pos_bound right (2 ^ 12) ltac:(lia)) as Hrn.
  rewrite (Z.mod_small ((left + right) mod 2 ^ 16)) by lia.
  rewrite (uint16_id ((left + right) mod 2 ^ 16)) by (unfold is_uint16; lia).
  rewrite (uint16_id (right mod 2 ^ 12 + left mod 2 ^ 12)) by (unfold is_uint16; lia).
  rewrite (Z.add_comm (right mod 2 ^ 12)).
  split; [reflexivity |].
  read_flags. repeat split; reflexivity.
Qed.

(** Each of the four primitives that take the flags leaves their low
    nibble as it was. *)
Lemma low_nibble_add8 (left right f : Z) (withCarry : bool) :
  Z.land (snd (cpu.add8 left right f withCarry)) 0x0F = Z.land f 0x0F.
Proof. unfold cpu.add8. cbv zeta. cbn [snd]. read_low_nibble. reflexivity. Qed.

Lemma low_nibble_add16 (left right f : Z) :
  Z.land (snd (cpu.add16 left right f)) 0x0F = Z.land f 0x0F.
Proof. unfold cpu.add16. cbv zeta. cbn [snd]. read_low_nibble. reflexivity. Qed.

Lemma low_nibble_and (left right f : Z) :
  Z.land (snd (cpu.and left right f)) 0x0F = Z.land f 0x0F.
Proof. unfold cpu.and. cbv zeta. cbn [snd]. read_low_nibble. reflexivity. Qed.

Lemma low_nibble_bit (b val f : Z) :
  Z.land (cpu.bit b val f) 0x0F = Z.land f 0x0F.
Proof. unfold cpu.bit. read_low_nibble. reflexivity. Qed.




(** C10: for every 8-bit [left] and every flags value with Carry set,
    [add8] with [withCarry] true and [right] = 0xFF leaves [left] unchanged
    and clears Carry: the carry-in increment wraps [right] to 0x00 before
    the widened sum is taken. *)
Theorem add8_carry_in_wraps (left f : Z) :
  is_uint8 left -> IsSet f cpu.FlagCarry = true ->
  uint8 (0xFF + 1) = 0x00 /\
  fst (cpu.add8 left 0xFF f true) = left /\
  IsClear (snd (cpu.add8 left 0xFF f true)) cpu.FlagCarry = true.
Proof.
  intros Hl Hc. split; [reflexivity |].
  assert (Hr : is_uint8 0xFF) by (unfold is_uint8; lia).
  destruct (add8_closed_form left 0xFF f true 0 Hl Hr) as (El & Ec & _).
  { now rewrite Hc. }
  rewrite IsClear_IsSet, Ec, El, Z.add_0_r.
  unfold is_uint8 in Hl. split; [apply Z.mod_small; lia |].
  destruct (Z.gtb_spec left 0xFF); [lia | reflexivity].
Qed.

Lemma add8_carry_in_wraps_witness :
  uint8 (0xFF + 1) = 0x00 /\
  fst (cpu.add8 0x2A 0xFF cpu.FlagCarry true) = 0x2A /\
  IsClear (snd (cpu.add8 0x2A 0xFF cpu.FlagCarry true)) cpu.FlagCarry = true.
Proof.
  apply (add8_carry_in_wraps 0x2A cpu.FlagCarry).
  - unfold is_uint8. lia.
  - vm_compute. reflexivity.
Defined.

(** C4: for every 16-bit [left] and [right] and every flags value, [add16]
    stores the sum truncated to 16 bits into [left], sets Carry iff the wide
    sum exceeds 0xFFFF, sets Half-Carry iff the low 12 bits of [left] plus
    the low 12 bits of [right] exceed 0xFFF, clears Add/Subtract, and leaves
    the Zero bit (bit 7) as it was. *)
Theorem add16_spec (left right f : Z) :
  is_uint16 left -> is_uint16 right ->
  let sum := left + right in
  let left' := fst (cpu.add16 left right f) in
  let f' := snd (cpu.add16 left right f) in
  left' = sum mod 2 ^ 16 /\
  (IsSet f' cpu.FlagCarry = true <-> sum > 0xFFFF) /\
  (IsSet f' cpu.FlagHalfCarry = true <-> left mod 2 ^ 12 + right mod 2 ^ 12 > 0xFFF) /\
  IsClear f' cpu.FlagAddSub = true /\
  IsSet f' cpu.FlagZero = IsSet f cpu.FlagZero /\
  Z.testbit f' 7 = Z.testbit f 7.
Proof.
  intros Hl Hr sum left' f'.
  destruct (add16_closed_form left right f Hl Hr) as (El & Ec & Ea & Ez & Eh).
  fold left' in El. fold f' in Ec, Ea, Ez, Eh. fold sum in El, Ec.
  rewrite IsClear_IsSet, Ec, Ea, Ez, Eh, El.
  rewrite !gtb_true_iff.
  repeat split; try tauto.
  change cpu.FlagZero with (2 ^ 7) in Ez.
  now rewrite !IsSet_testbit in Ez by lia.
Qed.

Lemma add16_spec_witness :
  fst (cpu.add16 0xFFFF 0x0002 cpu.FlagZero) = (0xFFFF + 0x0002) mod 2 ^ 16 /\
  (IsSet (snd (cpu.add16 0xFFFF 0x0002 cpu.FlagZero)) cpu.FlagCarry = true
   <-> 0xFFFF + 0x0002 > 0xFFFF) /\
  (IsSet (snd (cpu.add16 0xFFFF 0x0002 cpu.FlagZero)) cpu.FlagHalfCarry = true
   <-> 0xFFFF mod 2 ^ 12 + 0x0002 mod 2 ^ 12 > 0xFFF) /\
  IsClear (snd (cpu.add16 0xFFFF 0x0002 cpu.FlagZero)) cpu.FlagAddSub = true /\
  IsSet (snd (cpu.add16 0xFFFF 0x0002 cpu.FlagZero)) cpu.FlagZero
    = IsSet cpu.FlagZero cpu.FlagZero /\
  Z.testbit (snd (cpu.add16 0xFFFF 0x0002 cpu.FlagZero)) 7 = Z.testbit cpu.FlagZero 7.
Proof.
  apply (add16_spec 0xFFFF 0x0002 cpu.FlagZero); unfold is_uint16; lia.
Defined.

(** C8: the four named flags are 0x10, 0x20, 0x40 and 0x80, all in the
    high nibble, and the empty value is 0; the flags register of a new Z80
    is 0; each primitive that receives the flags ([add8], [add16], [and],
    [bit]), applied to a flags value whose low nibble is clear, yields a
    flags value whose low nibble is clear.  [push], [pop] and [call] neither
    receive nor return the flags (see their types), so the register is as
    it was after them. *)
Theorem flags_low_nibble_clear (f : Z) :
  Z.land f 0x0F = 0 ->
  (cpu.FlagEmpty = 0 /\ cpu.FlagCarry = 0x10 /\ cpu.FlagHalfCarry = 0x20 /\
   cpu.FlagAddSub = 0x40 /\ cpu.FlagZero = 0x80) /\
  (forall mem : memory.RAM,
     Z.land (cpu.NewZ80 mem).(cpu.Z80_State).(cpu.F) 0x0F = 0) /\
  (forall flag,
     In flag [cpu.FlagEmpty; cpu.FlagCarry; cpu.FlagHalfCarry; cpu.FlagAddSub;
              cpu.FlagZero] ->
     Z.land flag 0x0F = 0 /\ Z.land flag 0xF0 = flag) /\
  (forall left right withCarry,
     Z.land (snd (cpu.add8 left right f withCarry)) 0x0F = 0) /\
  (forall left right, Z.land (snd (cpu.add16 left right f)) 0x0F = 0) /\
  (forall left right, Z.land (snd (cpu.and left right f)) 0x0F = 0) /\
  (forall b val, Z.land (cpu.bit b val f) 0x0F = 0).
Proof.
  intros Hf.
  split; [repeat split; reflexivity |].
  split; [reflexivity |].
  split.
  { intros flag Hin. cbn [In] in Hin.
    destruct Hin as [<- | [<- | [<- | [<- | [<- | []]]]]]; split; reflexivity. }
  split; [intros; now rewrite low_nibble_add8 |].
  split; [intros; now rewrite low_nibble_add16 |].
  split; [intros; now rewrite low_nibble_and |].
  intros; now rewrite low_nibble_bit.
Qed.

Lemma flags_low_nibble_clear_witness :
  (forall left right withCarry,
     Z.land (snd (cpu.add8 left right 0x90 withCarry)) 0x0F = 0) /\
  (forall left right, Z.land (snd (cpu.add16 left right 0x90)) 0x0F = 0) /\
  (forall left right, Z.land (snd (cpu.and left right 0x90)) 0x0F = 0) /\
  (forall b val, Z.land (cpu.bit b val 0x90) 0x0F = 0).
Proof.
  apply (flags_low_nibble_clear 0x90). vm_compute. reflexivity.
Defined.

End ArithFacts.

(* ===================================================================== *)
(** ** Facts about package gogb: the header parser *)
(* ===================================================================== *)

Module RomFacts.
Import Go GoFacts gogb.

Lemma len_slice {A : Type} (s : list A) (lo hi : nat) :
  (hi <= length s)%nat -> length (slice s lo hi) = (hi - lo)%nat.
Proof. intros H. unfold slice. rewrite length_take, length_drop. lia. Qed.

Lemma slice_lookup_total (s : list Z) (lo hi i : nat) :
  (i < hi - lo)%nat -> slice s lo hi !!! i = s !!! (lo + i)%nat.
Proof.
  intros H. unfold slice.
  rewrite lookup_total_take_lt by lia. apply lookup_total_drop.
Qed.

(** Both subtractions wrap; together they are one subtraction modulo 256. *)
Lemma checksum_step (acc b : Z) : uint8 (uint8 (acc - b) - 1) = (acc - b - 1) mod 2 ^ 8.
Proof. unfold uint8. apply Zminus_mod_idemp_l. Qed.

(** The loop of [ParseHeader] folds the step over the bytes it visits, and
    does not panic while it stays within the slice. *)
Lemma checksum_loop_fold (n : nat) :
  forall (x : Z) (inp : list Z) (acc : Z),
    0 <= x -> x + Z.of_nat n <= len inp ->
    checksum_loop n x inp acc =
      Return (fold_left (fun a b => (a - b - 1) mod 2 ^ 8)
                        (take n (drop (Z.to_nat x) inp)) acc).
Proof.
  induction n as [| n IH]; intros x inp acc Hx Hn.
  - reflexivity.
  - cbn [checksum_loop].
    rewrite index_in_range by lia. cbn [mbind go_bind bind].
    rewrite IH by lia. rewrite checksum_step.
    assert (Hlk : inp !! Z.to_nat x = Some (inp !!! Z.to_nat x)).
    { apply list_lookup_lookup_total_lt. unfold len in Hn. lia. }
    rewrite (drop_S inp _ _ Hlk). cbn [take fold_left].
    replace (Z.to_nat (x + 1)) with (S (Z.to_nat x)) by lia.
    reflexivity.
Qed.

Lemma checksum_loop_spec (inp : list Z) :
  length inp = 0x50%nat ->
  checksum_loop (Z.to_nat (0x4C - 0x34 + 1)) 0x34 inp 0 = Return (header_checksum_spec inp).
Proof.
  intros Hlen. rewrite checksum_loop_fold by (unfold len; lia). reflexivity.
Qed.

(** [ParseHeader] on a slice of 0x50 bytes: every field is assigned from
    the input, none is read from the structure passed in, and no index is
    out of range. *)
Lemma ParseHeader_0x50 (inp : list Z) (header : CartridgeHeader) :
  length inp = 0x50%nat ->
  ParseHeader inp header =
    Return
      ({| Title := strings_TrimRight (slice inp 0x34 0x3F) 0x00;
          ManufacturerCode := strings_TrimRight (slice inp 0x3F 0x42) 0x00;
          CGBSupport :=
            if inp !!! 0x43%nat =? 0x80 then CgbSupported
            else if inp !!! 0x43%nat =? 0xC0 then CgbRequired
            else CgbNotSupported;
          NewLicenseeCode := slice inp 0x44 0x45;
          SGBSupport := inp !!! 0x46%nat =? 0x03;
          Type_ := inp !!! 0x47%nat;
          ROMSize := getROMSize (inp !!! 0x48%nat);
          RAMSize := getRAMSize (inp !!! 0x49%nat);
          Japanese := inp !!! 0x4A%nat =? 0x00;
          OldLicenseeCode := inp !!! 0x4B%nat;
          VersionNumber := inp !!! 0x4C%nat;
          GlobalChecksum :=
            Z.lor (inp !!! 0x4F%nat) (uint16 (Z.shiftl (inp !!! 0x4E%nat) 8)) |},
       if inp !!! 0x4D%nat =? header_checksum_spec inp
       then None else Some ErrHeaderChecksumInvalid).
Proof.
  intros Hlen. unfold ParseHeader.
  assert (Hl : len inp = 0x50) by (unfold len; rewrite Hlen; reflexivity).
  rewrite Hl. cbn [Z.eqb Pos.eqb negb].
  rewrite checksum_loop_spec by assumption.
  unfold BigEndian_Uint16.
  rewrite !index_in_range
    by (unfold len; rewrite ?len_slice by lia; rewrite ?Hlen; cbn; lia).
  cbn [mbind go_bind bind].
  rewrite !slice_lookup_total by (cbn; lia).
  change (Z.to_nat 0x43) with 0x43%nat. change (Z.to_nat 0x46) with 0x46%nat.
  change (Z.to_nat 0x47) with 0x47%nat. change (Z.to_nat 0x48) with 0x48%nat.
  change (Z.to_nat 0x49) with 0x49%nat. change (Z.to_nat 0x4A) with 0x4A%nat.
  change (Z.to_nat 0x4B) with 0x4B%nat. change (Z.to_nat 0x4C) with 0x4C%nat.
  change (Z.to_nat 0x4D) with 0x4D%nat.
  change (0x4E + Z.to_nat 1)%nat with 0x4F%nat.
  change (0x4E + Z.to_nat 0)%nat with 0x4E%nat.
  destruct (inp !!! 0x4D%nat =? header_checksum_spec inp);
    destruct (inp !!! 0x43%nat =? 0x80); [| destruct (inp !!! 0x43%nat =? 0xC0) ..];
    reflexivity.
Qed.

(** C9: for every input slice, [ParseHeader] returns
    [ErrHeaderLengthInvalid] iff the slice is not exactly 0x50 bytes long,
    and then the structure is as it was.  For a slice of 0x50 bytes it
    assigns every field of the structure from the input (the result does
    not depend on what the structure held before), its loop computes the running
    subtraction accumulator = accumulator - byte - 1 over the bytes 0x34
    through 0x4C, and it returns [ErrHeaderChecksumInvalid] iff that value
    differs from the byte at 0x4D, and no error otherwise. *)
Theorem ParseHeader_spec (inp : list Z) (header : CartridgeHeader) :
  exists header' err,
    ParseHeader inp header = Return (header', err) /\
    (err = Some ErrHeaderLengthInvalid <-> length inp <> 0x50%nat) /\
    (length inp <> 0x50%nat -> header' = header) /\
    (length inp = 0x50%nat ->
       (forall other, ParseHeader inp other = Return (header', err)) /\
       header' =
         {| Title := strings_TrimRight (slice inp 0x34 0x3F) 0x00;
            ManufacturerCode := strings_TrimRight (slice inp 0x3F 0x42) 0x00;
            CGBSupport :=
              if inp !!! 0x43%nat =? 0x80 then CgbSupported
              else if inp !!! 0x43%nat =? 0xC0 then CgbRequired
              else CgbNotSupported;
            NewLicenseeCode := slice inp 0x44 0x45;
            SGBSupport := inp !!! 0x46%nat =? 0x03;
            Type_ := inp !!! 0x47%nat;
            ROMSize := getROMSize (inp !!! 0x48%nat);
            RAMSize := getRAMSize (inp !!! 0x49%nat);
            Japanese := inp !!! 0x4A%nat =? 0x00;
            OldLicenseeCode := inp !!! 0x4B%nat;
            VersionNumber := inp !!! 0x4C%nat;
            GlobalChecksum :=
              Z.lor (inp !!! 0x4F%nat) (uint16 (Z.shiftl (inp !!! 0x4E%nat) 8)) |} /\
       checksum_loop (Z.to_nat (0x4C - 0x34 + 1)) 0x34 inp 0
         = Return (header_checksum_spec inp) /\
       (err = Some ErrHeaderChecksumInvalid
          <-> inp !!! 0x4D%nat <> header_checksum_spec inp) /\
       (err = None <-> inp !!! 0x4D%nat = header_checksum_spec inp)).
Proof.
  destruct (Nat.eq_dec (length inp) 0x50%nat) as [Hlen | Hlen].
  - rewrite (ParseHeader_0x50 inp header Hlen).
    eexists _, _. split; [reflexivity |].
    split; [| split; [intros; contradiction |]].
    { destruct (_ =? _); split; intros; solve [discriminate | contradiction]. }
    intros _.
    split; [intros other; now rewrite (ParseHeader_0x50 inp other Hlen) |].
    split; [reflexivity |].
    split; [now apply checksum_loop_spec |].
    destruct (Z.eqb_spec (inp !!! 0x4D%nat) (header_checksum_spec inp));
      split; split; intros; solve [discriminate | contradiction | reflexivity | assumption].
  - unfold ParseHeader.
    destruct (Z.eqb_spec (len inp) 0x50) as [E | _]; [unfold len in E; lia |].
    cbn [negb]. eexists _, _. split; [reflexivity |].
    split; [split; [intros _; assumption | reflexivity] |].
    split; [reflexivity | intros; contradiction].
Qed.

Lemma ParseHeader_spec_witness :
  exists header' err,
    ParseHeader (replicate 0x4D 0 ++ [0xE7; 0x01; 0x02])
                (Build_CartridgeHeader [] [] CgbNotSupported [] false 0 0 0 false 0 0 0)
      = Return (header', err).
Proof.
  destruct (ParseHeader_spec
              (replicate 0x4D 0 ++ [0xE7; 0x01; 0x02])
              (Build_CartridgeHeader [] [] CgbNotSupported [] false 0 0 0 false 0 0 0))
    as (header' & err & E & _).
  exists header', err. exact E.
Defined.

End RomFacts.

(* ===================================================================== *)
(** ** More about package memory: round trips, frames, invariants *)
(* ===================================================================== *)

Module MemoryProps.
Import Go GoFacts memory MemoryFacts.

(** What a [SetByte] that returns has done. *)
Lemma SetByte_inv (r : RAM) (addr val : Z) (r' : RAM) (e : option error) :
  SetByte r addr val = Return (r', e) ->
  (len r.(data) <= addr /\ r' = r /\ e = Some ErrAddressOutOfRange) \/
  (0 <= addr < len r.(data) /\
   r' = {| data := <[Z.to_nat addr := val]> r.(data) |} /\ e = None).
Proof.
  cbn [SetByte RAM_MMU]. intros E.
  destruct (Z.le_gt_cases (len r.(data)) addr) as [Hout | Hin].
  - rewrite RAM_SetByte_out in E by assumption. injection E as <- <-. now left.
  - destruct (Z.lt_ge_cases addr 0) as [Hneg | Hnn].
    + rewrite RAM_SetByte_negative in E by assumption. discriminate.
    + rewrite RAM_SetByte_in in E by lia. injection E as <- <-. right. repeat split; lia.
Qed.

(** What a [SetWord] that returns has done. *)
Lemma SetWord_inv (r : RAM) (addr val : Z) (r' : RAM) (e : option error) :
  is_int (addr + 1) ->
  SetWord r addr val = Return (r', e) ->
  (len r.(data) <= addr + 1 /\ r' = r /\ e = Some ErrAddressOutOfRange) \/
  (0 <= addr /\ addr + 1 < len r.(data) /\
   r' = {| data := <[Z.to_nat (addr + 1) := uint8 (Z.land val 0x00FF)]>
                     (<[Z.to_nat addr := uint8 (Z.shiftr (Z.land val 0xFF00) 8)]>
                        r.(data)) |} /\
   e = None).
Proof.
  cbn [SetWord RAM_MMU]. intros Hi E.
  destruct (Z.le_gt_cases (len r.(data)) (addr + 1)) as [Hout | Hin].
  - rewrite RAM_SetWord_out in E by assumption. injection E as <- <-. now left.
  - destruct (Z.lt_ge_cases addr 0) as [Hneg | Hnn].
    + unfold RAM_SetWord in E. rewrite int_id in E by assumption.
      destruct (Z.geb_spec (addr + 1) (len r.(data))); [lia |].
      rewrite store_negative in E by assumption. discriminate.
    + rewrite RAM_SetWord_in in E by (assumption || lia). injection E as <- <-.
      right. repeat split; lia.
Qed.

(** The two bytes [SetWord] stores, as quotient and remainder. *)
Lemma high_byte (val : Z) :
  is_uint16 val -> uint8 (Z.shiftr (Z.land val 0xFF00) 8) = val / 2 ^ 8.
Proof.
  unfold is_uint16, uint8. intros Hv.
  rewrite Z.shiftr_land. change (Z.shiftr 0xFF00 8) with (Z.ones 8).
  rewrite Z.land_ones, Z.shiftr_div_pow2 by lia.
  assert (0 <= val / 2 ^ 8 < 2 ^ 8).
  { change (2 ^ 16) with 65536 in Hv. change (2 ^ 8) with 256.
    split; [apply Z.div_pos; lia | apply Z.div_lt_upper_bound; lia]. }
  rewrite Z.mod_mod by lia. apply Z.mod_small. assumption.
Qed.

Lemma low_byte (val : Z) : uint8 (Z.land val 0x00FF) = val mod 2 ^ 8.
Proof.
  unfold uint8. change 0x00FF with (Z.ones 8). rewrite Z.land_ones by lia.
  apply Z.mod_mod. lia.
Qed.

(** The word [GetWord] assembles from two bytes. *)
Lemma word_value (hi lo : Z) :
  is_uint8 hi -> is_uint8 lo -> Z.lor (uint16 (Z.shiftl hi 8)) lo = 2 ^ 8 * hi + lo.
Proof.
  unfold is_uint8. intros Hh Hl.
  rewrite Z.shiftl_mul_pow2 by lia.
  rewrite uint16_id by (unfold is_uint16; lia).
  rewrite <- Z.lxor_lor, <- Z.add_nocarry_lxor; [lia | |];
    (apply Z.bits_inj'; intros n Hn; rewrite Z.land_spec, Z.bits_0;
     destruct (Z.ltb_spec n 8);
     [ rewrite Z.mul_pow2_bits_low by lia; reflexivity
     | rewrite (Z.bits_above_log2 lo n), andb_false_r; [reflexivity | lia |];
       destruct (Z.eq_dec lo 0) as [-> | ?]; [cbn; lia |];
       assert (Z.log2 lo < 8) by (apply Z.log2_lt_pow2; lia); lia ]).
Qed.

(** What a [GetByte] that returns has read. *)
Lemma GetByte_inv (r : RAM) (addr b : Z) (e : option error) :
  GetByte r addr = Return (b, e) ->
  (len r.(data) <= addr /\ b = 0 /\ e = Some ErrAddressOutOfRange) \/
  (0 <= addr < len r.(data) /\ b = r.(data) !!! Z.to_nat addr /\ e = None).
Proof.
  cbn [GetByte RAM_MMU]. intros E.
  destruct (Z.le_gt_cases (len r.(data)) addr) as [Hout | Hin].
  - rewrite RAM_GetByte_out in E by assumption. injection E as <- <-. now left.
  - destruct (Z.lt_ge_cases addr 0) as [Hneg | Hnn].
    + rewrite RAM_GetByte_negative in E by assumption. discriminate.
    + rewrite RAM_GetByte_in in E by lia. injection E as <- <-. right. repeat split; lia.
Qed.

(** Two memories of the same size that agree at [b] answer [GetByte] alike. *)
Lemma GetByte_agree (r r' : RAM) (b : Z) :
  len r'.(data) = len r.(data) ->
  (0 <= b < len r.(data) -> r'.(data) !!! Z.to_nat b = r.(data) !!! Z.to_nat b) ->
  GetByte r' b = GetByte r b.
Proof.
  intros Hlen Hb. cbn [GetByte RAM_MMU].
  destruct (Z.le_gt_cases (len r.(data)) b) as [Hout | Hin].
  - now rewrite !RAM_GetByte_out by lia.
  - destruct (Z.lt_ge_cases b 0) as [Hneg | Hnn].
    + now rewrite !RAM_GetByte_negative by assumption.
    + rewrite !RAM_GetByte_in by lia. now rewrite Hb by lia.
Qed.

(** X1: a RAM made by [NewRAM(size)] has [size] cells, all of them bytes
    and all zero: every byte and word read within it returns 0 without
    error, and a byte read at [size] or beyond is out of range. *)
Theorem NewRAM_reads_zero (size addr : Z) :
  is_uint16 size -> 0 <= addr ->
  len (NewRAM size).(data) = size /\
  Forall is_uint8 (NewRAM size).(data) /\
  (addr < size -> GetByte (NewRAM size) addr = Return (0, None)) /\
  (size <= addr -> GetByte (NewRAM size) addr = Return (0, Some ErrAddressOutOfRange)) /\
  (addr + 1 < size -> GetWord (NewRAM size) addr = Return (0, None)).
Proof.
  unfold is_uint16. intros Hs Ha.
  assert (Hlen : len (NewRAM size).(data) = size).
  { unfold len, NewRAM. cbn [data]. rewrite length_replicate. lia. }
  split; [exact Hlen |].
  split; [apply Forall_replicate; unfold is_uint8; lia |].
  cbn [GetByte GetWord RAM_MMU].
  split; [| split]; intros Hb.
  - rewrite RAM_GetByte_in by lia. unfold NewRAM. cbn [data].
    now rewrite lookup_total_replicate_2 by lia.
  - apply RAM_GetByte_out. lia.
  - rewrite RAM_GetWord_in by (unfold is_int; lia). unfold NewRAM. cbn [data].
    now rewrite !lookup_total_replicate_2 by lia.
Qed.

Lemma NewRAM_reads_zero_witness :
  len (NewRAM 0xFF).(data) = 0xFF /\
  Forall is_uint8 (NewRAM 0xFF).(data) /\
  (0xFD < 0xFF -> GetByte (NewRAM 0xFF) 0xFD = Return (0, None)) /\
  (0xFF <= 0xFD -> GetByte (NewRAM 0xFF) 0xFD = Return (0, Some ErrAddressOutOfRange)) /\
  (0xFD + 1 < 0xFF -> GetWord (NewRAM 0xFF) 0xFD = Return (0, None)).
Proof. apply (NewRAM_reads_zero 0xFF 0xFD); unfold is_uint16; lia. Defined.

(** X2: after a [SetByte] that succeeds, [GetByte] at the same address
    returns the value written, and [GetByte] at every other address
    (in range or not) answers as before the write. *)
Theorem SetByte_then_GetByte (r r' : RAM) (addr val : Z) :
  SetByte r addr val = Return (r', None) ->
  GetByte r' addr = Return (val, None) /\
  forall b, b <> addr -> GetByte r' b = GetByte r b.
Proof.
  intros E.
  destruct (SetByte_inv r addr val r' None E) as [(_ & _ & [=]) | (Ha & -> & _)].
  split.
  - cbn [GetByte RAM_MMU]. rewrite RAM_GetByte_in by (cbn [data]; rewrite len_insert; lia).
    cbn [data]. now rewrite list_lookup_total_insert_eq by (unfold len in Ha; lia).
  - intros b Hb. apply GetByte_agree; cbn [data].
    + apply len_insert.
    + intros Hr. now rewrite list_lookup_total_insert_ne by lia.
Qed.

Lemma SetByte_then_GetByte_witness :
  GetByte {| data := [0; 0; 0xAB; 0] |} 2 = Return (0xAB, None) /\
  forall b, b <> 2 ->
    GetByte {| data := [0; 0; 0xAB; 0] |} b = GetByte (NewRAM 4) b.
Proof. apply (SetByte_then_GetByte (NewRAM 4) _ 2 0xAB). vm_compute. reflexivity. Defined.

(** X3: after a [SetWord] that succeeds, [GetWord] at the same address
    returns the 16-bit value written. *)
Theorem SetWord_then_GetWord (r r' : RAM) (addr val : Z) :
  is_uint16 val -> is_int (addr + 1) ->
  SetWord r addr val = Return (r', None) ->
  GetWord r' addr = Return (val, None).
Proof.
  intros Hv Hi E. cbn [GetWord SetWord RAM_MMU] in *.
  now apply (RAM_SetWord_GetWord r r' addr val).
Qed.

Lemma SetWord_then_GetWord_witness :
  GetWord {| data := [0; 0xBE; 0xEF; 0] |} 1 = Return (0xBEEF, None).
Proof.
  apply (SetWord_then_GetWord (NewRAM 4) _ 1 0xBEEF).
  - unfold is_uint16. lia.
  - unfold is_int. lia.
  - vm_compute. reflexivity.
Defined.

(** X4: words are stored big-endian.  After a [SetWord] of a 16-bit value
    that succeeds, [GetByte] returns the high byte (value / 256) at the
    address and the low byte (value mod 256) at the address + 1, and
    answers as before the write at every other address. *)
Theorem SetWord_big_endian (r r' : RAM) (addr val : Z) :
  is_uint16 val -> is_int (addr + 1) ->
  SetWord r addr val = Return (r', None) ->
  GetByte r' addr = Return (val / 2 ^ 8, None) /\
  GetByte r' (addr + 1) = Return (val mod 2 ^ 8, None) /\
  forall b, b <> addr -> b <> addr + 1 -> GetByte r' b = GetByte r b.
Proof.
  intros Hv Hi E.
  destruct (SetWord_inv r addr val r' None Hi E)
    as [(_ & _ & [=]) | (H0 & Ha & -> & _)].
  rewrite high_byte by assumption. rewrite low_byte.
  assert (Hl : (Z.to_nat (addr + 1) < length r.(data))%nat) by (unfold len in Ha; lia).
  cbn [GetByte RAM_MMU]. split; [| split].
  - rewrite RAM_GetByte_in by (cbn [data]; rewrite !len_insert; lia). cbn [data].
    rewrite list_lookup_total_insert_ne by lia.
    now rewrite list_lookup_total_insert_eq by lia.
  - rewrite RAM_GetByte_in by (cbn [data]; rewrite !len_insert; lia). cbn [data].
    now rewrite list_lookup_total_insert_eq by (rewrite length_insert; lia).
  - intros b Hb Hb'. apply GetByte_agree; cbn [data].
    + now rewrite !len_insert.
    + intros Hr. now rewrite !list_lookup_total_insert_ne by lia.
Qed.

Lemma SetWord_big_endian_witness :
  GetByte {| data := [0; 0xBE; 0xEF; 0] |} 1 = Return (0xBEEF / 2 ^ 8, None) /\
  GetByte {| data := [0; 0xBE; 0xEF; 0] |} (1 + 1) = Return (0xBEEF mod 2 ^ 8, None) /\
  forall b, b <> 1 -> b <> 1 + 1 ->
    GetByte {| data := [0; 0xBE; 0xEF; 0] |} b = GetByte (NewRAM 4) b.
Proof.
  apply (SetWord_big_endian (NewRAM 4) _ 1 0xBEEF).
  - unfold is_uint16. lia.
  - unfold is_int. lia.
  - vm_compute. reflexivity.
Defined.

(** X5: a setter that returns never changes the size of the RAM, and one
    that returns an error (always [ErrAddressOutOfRange]) has written
    nothing: no partial word is stored. *)
Theorem setters_keep_size_and_fail_clean (r r' : RAM) (addr val : Z) (e : option error) :
  is_int (addr + 1) ->
  (SetByte r addr val = Return (r', e) ->
     len r'.(data) = len r.(data) /\
     (e <> None -> r' = r /\ e = Some ErrAddressOutOfRange)) /\
  (SetWord r addr val = Return (r', e) ->
     len r'.(data) = len r.(data) /\
     (e <> None -> r' = r /\ e = Some ErrAddressOutOfRange)).
Proof.
  intros Hi. split; intros E.
  - destruct (SetByte_inv r addr val r' e E) as [(_ & -> & ->) | (_ & -> & ->)].
    + split; [reflexivity | intros _; split; reflexivity].
    + split; [apply len_insert | intros Hne; contradiction].
  - destruct (SetWord_inv r addr val r' e Hi E) as [(_ & -> & ->) | (_ & _ & -> & ->)].
    + split; [reflexivity | intros _; split; reflexivity].
    + split; [cbn [data]; now rewrite !len_insert | intros Hne; contradiction].
Qed.

Lemma setters_keep_size_and_fail_clean_witness :
  (len (NewRAM 4).(data) = len (NewRAM 4).(data) /\
   (Some ErrAddressOutOfRange <> None ->
      NewRAM 4 = NewRAM 4 /\ Some ErrAddressOutOfRange = Some ErrAddressOutOfRange)) /\
  (len (NewRAM 4).(data) = len (NewRAM 4).(data) /\
   (Some ErrAddressOutOfRange <> None ->
      NewRAM 4 = NewRAM 4 /\ Some ErrAddressOutOfRange = Some ErrAddressOutOfRange)).
Proof.
  destruct (setters_keep_size_and_fail_clean
              (NewRAM 4) (NewRAM 4) 5 0xBEEF (Some ErrAddressOutOfRange)) as [Hb Hw].
  - unfold is_int. lia.
  - split; [apply Hb | apply Hw]; vm_compute; reflexivity.
Defined.

(** X6: the cells stay bytes.  In a RAM whose cells are all bytes,
    [SetByte] of a byte and [SetWord] of any value leave every cell a
    byte, [GetByte] returns a byte and [GetWord] a 16-bit value. *)
Theorem RAM_cells_stay_bytes (r : RAM) (addr val : Z) :
  Forall is_uint8 r.(data) -> is_int (addr + 1) ->
  (forall r' e, is_uint8 val -> SetByte r addr val = Return (r', e) ->
     Forall is_uint8 r'.(data)) /\
  (forall r' e, SetWord r addr val = Return (r', e) -> Forall is_uint8 r'.(data)) /\
  (forall b e, GetByte r addr = Return (b, e) -> is_uint8 b) /\
  (forall w e, GetWord r addr = Return (w, e) -> is_uint16 w).
Proof.
  intros Hr Hi. split; [| split; [| split]].
  - intros r' e Hv E.
    destruct (SetByte_inv r addr val r' e E) as [(_ & -> & _) | (_ & -> & _)];
      [assumption | now apply Forall_insert].
  - intros r' e E.
    destruct (SetWord_inv r addr val r' e Hi E) as [(_ & -> & _) | (_ & _ & -> & _)];
      [assumption |].
    cbn [data]. repeat apply Forall_insert; auto using uint8_range.
  - intros b e E.
    destruct (GetByte_inv r addr b e E) as [(_ & -> & _) | (Ha & -> & _)].
    + unfold is_uint8. lia.
    + apply (Forall_lookup_total_1 is_uint8); [assumption | unfold len in Ha; lia].
  - intros w e. cbn [GetWord RAM_MMU].
    destruct (Z.le_gt_cases (len r.(data)) (addr + 1)) as [Hout | Hin].
    + rewrite RAM_GetWord_out by assumption. intros [= <- _]. unfold is_uint16. lia.
    + destruct (Z.lt_ge_cases addr 0) as [Hneg | Hnn].
      * unfold RAM_GetWord. rewrite int_id by assumption.
        destruct (Z.geb_spec (addr + 1) (len r.(data))); [lia |].
        rewrite (index_negative _ addr) by assumption. discriminate.
      * rewrite RAM_GetWord_in by (assumption || lia). intros [= <- _].
        assert (Hh : is_uint8 (r.(data) !!! Z.to_nat addr))
          by (apply (Forall_lookup_total_1 is_uint8); [assumption | unfold len in Hin; lia]).
        assert (Hl : is_uint8 (r.(data) !!! Z.to_nat (addr + 1)))
          by (apply (Forall_lookup_total_1 is_uint8); [assumption | unfold len in Hin; lia]).
        rewrite word_value by assumption.
        unfold is_uint8 in Hh, Hl. unfold is_uint16. lia.
Qed.

Lemma RAM_cells_stay_bytes_witness :
  (forall r' e, is_uint8 0xAB -> SetByte (NewRAM 4) 1 0xAB = Return (r', e) ->
     Forall is_uint8 r'.(data)) /\
  (forall r' e, SetWord (NewRAM 4) 1 0xAB = Return (r', e) -> Forall is_uint8 r'.(data)) /\
  (forall b e, GetByte (NewRAM 4) 1 = Return (b, e) -> is_uint8 b) /\
  (forall w e, GetWord (NewRAM 4) 1 = Return (w, e) -> is_uint16 w).
Proof.
  apply (RAM_cells_stay_bytes (NewRAM 4) 1 0xAB).
  - apply Forall_replicate. unfold is_uint8. lia.
  - unfold is_int. lia.
Defined.

(** X7: a word is its two bytes.  In a RAM whose cells are bytes, when
    [GetByte] returns [hi] at an address and [lo] at the next one,
    [GetWord] at the address returns 256 * [hi] + [lo]. *)
Theorem GetWord_from_bytes (r : RAM) (addr hi lo : Z) :
  Forall is_uint8 r.(data) -> is_int (addr + 1) ->
  GetByte r addr = Return (hi, None) ->
  GetByte r (addr + 1) = Return (lo, None) ->
  GetWord r addr = Return (2 ^ 8 * hi + lo, None).
Proof.
  intros Hr Hi Eh El.
  destruct (GetByte_inv r addr hi None Eh) as [(_ & _ & [=]) | (Ha & -> & _)].
  destruct (GetByte_inv r (addr + 1) lo None El) as [(_ & _ & [=]) | (Ha' & -> & _)].
  cbn [GetWord RAM_MMU]. rewrite RAM_GetWord_in by (assumption || lia).
  rewrite word_value; [reflexivity | |];
    (apply (Forall_lookup_total_1 is_uint8); [assumption | unfold len in *; lia]).
Qed.

Lemma GetWord_from_bytes_witness :
  GetWord {| data := [0; 0xBE; 0xEF; 0] |} 1 = Return (2 ^ 8 * 0xBE + 0xEF, None).
Proof.
  apply (GetWord_from_bytes {| data := [0; 0xBE; 0xEF; 0] |} 1 0xBE 0xEF).
  - repeat constructor; unfold is_uint8; lia.
  - unfold is_int. lia.
  - vm_compute. reflexivity.
  - vm_compute. reflexivity.
Defined.

End MemoryProps.

(* ===================================================================== *)
(** ** More about the flags register *)
(* ===================================================================== *)

Module FlagProps.
Import Go GoFacts FlagFacts.
Import cpu.Z80Flags.

(** A named flag is one of the bits 4..7. *)
Lemma named_flag_bit (flag : Z) :
  In flag [cpu.FlagCarry; cpu.FlagHalfCarry; cpu.FlagAddSub; cpu.FlagZero] ->
  exists k, 4 <= k < 8 /\ flag = 2 ^ k.
Proof.
  cbn [In]. intros [<- | [<- | [<- | [<- | []]]]];
    [exists 4 | exists 5 | exists 6 | exists 7]; (split; [lia | reflexivity]).
Qed.

Lemma uint8_iff_land (x : Z) : is_uint8 x <-> Z.land x (Z.ones 8) = x.
Proof.
  unfold is_uint8. rewrite Z.land_ones by lia. split.
  - intros Hx. apply Z.mod_small. lia.
  - intros <-. apply Z.mod_pos_bound. lia.
Qed.

(** Two [uint8] values with the same eight bits are equal. *)
Lemma uint8_ext (a b : Z) :
  is_uint8 a -> is_uint8 b ->
  (forall j, 0 <= j < 8 -> Z.testbit a j = Z.testbit b j) -> a = b.
Proof.
  rewrite !uint8_iff_land. intros Ha Hb Hj. rewrite <- Ha, <- Hb.
  apply Z.bits_inj'. intros n Hn. rewrite !Z.land_spec.
  destruct (Z.ltb_spec n 8).
  - now rewrite Hj by lia.
  - rewrite Z.ones_spec_high by lia. now rewrite !andb_false_r.
Qed.

Lemma Set_uint8 (f k : Z) : 0 <= k < 8 -> is_uint8 f -> is_uint8 (Set_ f (2 ^ k)).
Proof.
  intros Hk. rewrite !uint8_iff_land. intros Hf. unfold Set_.
  rewrite Z.land_lor_distr_l, Hf. f_equal.
  apply uint8_iff_land. unfold is_uint8.
  split; [apply Z.pow_nonneg; lia | apply Z.pow_lt_mono_r; lia].
Qed.

Lemma Clear_uint8 (f flag : Z) : is_uint8 f -> is_uint8 (Clear f flag).
Proof.
  rewrite !uint8_iff_land. intros Hf. unfold Clear.
  rewrite <- Z.land_assoc, (Z.land_comm _ (Z.ones 8)), Z.land_assoc. now rewrite Hf.
Qed.

Lemma SetIf_uint8 (f k : Z) (c : bool) :
  0 <= k < 8 -> is_uint8 f -> is_uint8 (SetIf f c (2 ^ k)).
Proof. intros Hk Hf. destruct c; cbn; [now apply Set_uint8 | now apply Clear_uint8]. Qed.

(** X8: [SetIf] decides the flag it writes and no other.  For named
    flags P and Q, after [SetIf(c, P)] the flag P is set iff [c] holds,
    whatever it was before, every other named flag Q reads as before, and
    [IsClear] is the negation of [IsSet]. *)
Theorem SetIf_reads_back (f : Z) (c : bool) (P Q : Z) :
  In P [cpu.FlagCarry; cpu.FlagHalfCarry; cpu.FlagAddSub; cpu.FlagZero] ->
  In Q [cpu.FlagCarry; cpu.FlagHalfCarry; cpu.FlagAddSub; cpu.FlagZero] ->
  IsSet (SetIf f c P) P = c /\
  (Q <> P -> IsSet (SetIf f c P) Q = IsSet f Q) /\
  IsClear (SetIf f c P) Q = negb (IsSet (SetIf f c P) Q).
Proof.
  intros HP HQ.
  destruct (named_flag_bit P HP) as (k & Hk & ->).
  destruct (named_flag_bit Q HQ) as (j & Hj & ->).
  split; [| split].
  - rewrite IsSet_SetIf by lia. now rewrite Z.eqb_refl.
  - intros Hne. rewrite IsSet_SetIf by lia.
    destruct (Z.eqb_spec k j) as [-> | _]; [contradiction | reflexivity].
  - apply IsClear_IsSet.
Qed.

Lemma SetIf_reads_back_witness :
  IsSet (SetIf 0x90 false cpu.FlagCarry) cpu.FlagCarry = false /\
  (cpu.FlagZero <> cpu.FlagCarry ->
     IsSet (SetIf 0x90 false cpu.FlagCarry) cpu.FlagZero = IsSet 0x90 cpu.FlagZero) /\
  IsClear (SetIf 0x90 false cpu.FlagCarry) cpu.FlagZero
    = negb (IsSet (SetIf 0x90 false cpu.FlagCarry) cpu.FlagZero).
Proof.
  apply (SetIf_reads_back 0x90 false cpu.FlagCarry cpu.FlagZero); cbn [In]; auto.
Defined.

(** X9: the flags register stays a [uint8]: [Set], [Clear] and [SetIf] of a
    named flag on an 8-bit value give an 8-bit value. *)
Theorem flag_writes_stay_uint8 (f : Z) (c : bool) (P : Z) :
  is_uint8 f ->
  In P [cpu.FlagCarry; cpu.FlagHalfCarry; cpu.FlagAddSub; cpu.FlagZero] ->
  is_uint8 (Set_ f P) /\ is_uint8 (Clear f P) /\ is_uint8 (SetIf f c P).
Proof.
  intros Hf HP. destruct (named_flag_bit P HP) as (k & Hk & ->).
  split; [apply Set_uint8 | split; [apply Clear_uint8 | apply SetIf_uint8]];
    assumption || lia.
Qed.

Lemma flag_writes_stay_uint8_witness :
  is_uint8 (Set_ 0xF0 cpu.FlagZero) /\ is_uint8 (Clear 0xF0 cpu.FlagZero) /\
  is_uint8 (SetIf 0xF0 true cpu.FlagZero).
Proof.
  apply (flag_writes_stay_uint8 0xF0 true cpu.FlagZero).
  - unfold is_uint8. lia.
  - cbn [In]. auto.
Defined.

(** X10: on an 8-bit flags value, a second [SetIf] of the same named flag
    overrides the first (the last write wins), and [SetIf]s of two
    different named flags commute. *)
Theorem SetIf_overrides_and_commutes (f : Z) (c1 c2 : bool) (P Q : Z) :
  is_uint8 f ->
  In P [cpu.FlagCarry; cpu.FlagHalfCarry; cpu.FlagAddSub; cpu.FlagZero] ->
  In Q [cpu.FlagCarry; cpu.FlagHalfCarry; cpu.FlagAddSub; cpu.FlagZero] ->
  SetIf (SetIf f c1 P) c2 P = SetIf f c2 P /\
  (P <> Q -> SetIf (SetIf f c1 P) c2 Q = SetIf (SetIf f c2 Q) c1 P).
Proof.
  intros Hf HP HQ.
  destruct (named_flag_bit P HP) as (k & Hk & ->).
  destruct (named_flag_bit Q HQ) as (j & Hj & ->).
  split.
  - apply uint8_ext; [repeat apply SetIf_uint8; assumption || lia .. |].
    intros i Hi. rewrite !testbit_SetIf by lia. now destruct (k =? i).
  - intros Hne.
    apply uint8_ext; [repeat apply SetIf_uint8; assumption || lia .. |].
    intros i Hi. rewrite !testbit_SetIf by lia.
    destruct (Z.eqb_spec j i) as [-> | _], (Z.eqb_spec k i) as [-> | _];
      try reflexivity. contradiction.
Qed.

Lemma SetIf_overrides_and_commutes_witness :
  SetIf (SetIf 0x90 true cpu.FlagHalfCarry) false cpu.FlagHalfCarry
    = SetIf 0x90 false cpu.FlagHalfCarry /\
  (cpu.FlagHalfCarry <> cpu.FlagZero ->
     SetIf (SetIf 0x90 true cpu.FlagHalfCarry) false cpu.FlagZero
       = SetIf (SetIf 0x90 false cpu.FlagZero) true cpu.FlagHalfCarry).
Proof.
  apply (SetIf_overrides_and_commutes 0x90 true false cpu.FlagHalfCarry cpu.FlagZero).
  - unfold is_uint8. lia.
  - cbn [In]. auto.
  - cbn [In]. auto.
Defined.

End FlagProps.

(* ===================================================================== *)
(** ** More about the arithmetic and logic primitives *)
(* ===================================================================== *)

Module ArithProps.
Import Go GoFacts FlagFacts FlagProps ArithFacts.
Import cpu.Z80Flags.

Lemma land_uint8 (a b : Z) : is_uint8 a -> is_uint8 (Z.land a b).
Proof.
  rewrite !uint8_iff_land. intros Ha.
  rewrite <- Z.land_assoc, (Z.land_comm b), Z.land_assoc. now rewrite Ha.
Qed.

(** [1<<b] in [uint8]: the bit [b] below 8, nothing from 8 on. *)
Lemma shift_one_uint8 (b : Z) :
  0 <= b -> uint8 (Z.shiftl 1 b) = if b <? 8 then 2 ^ b else 0.
Proof.
  intros Hb. unfold uint8. rewrite Z.shiftl_1_l.
  destruct (Z.ltb_spec b 8).
  - apply Z.mod_small. split; [apply Z.pow_nonneg; lia | apply Z.pow_lt_mono_r; lia].
  - replace b with (b - 8 + 8) by lia. rewrite Z.pow_add_r by lia.
    apply Z.mod_mul. lia.
Qed.

(** X11: [and] stores the bitwise AND of its operands, and its flags
    do not depend on the flags before: Zero is set iff the result is 0,
    Half-Carry is set, Add/Subtract and Carry are clear; on an 8-bit flags
    value with a clear low nibble the new flags are exactly 0xA0 (result
    zero) or 0x20. *)
Theorem and_spec (left right f : Z) :
  is_uint8 f -> Z.land f 0x0F = 0 ->
  let left' := fst (cpu.and left right f) in
  let f' := snd (cpu.and left right f) in
  left' = Z.land left right /\
  (IsSet f' cpu.FlagZero = true <-> left' = 0) /\
  IsSet f' cpu.FlagHalfCarry = true /\
  IsSet f' cpu.FlagAddSub = false /\
  IsSet f' cpu.FlagCarry = false /\
  f' = (if left' =? 0 then 0xA0 else 0x20).
Proof.
  intros Hf Hlow left' f'. subst left' f'. unfold cpu.and. cbv zeta. cbn [fst snd].
  split; [reflexivity |].
  split; [read_flags; apply Z.eqb_eq |].
  split; [read_flags; reflexivity |].
  split; [read_flags; reflexivity |].
  split; [read_flags; reflexivity |].
  change cpu.FlagCarry with (2 ^ 4). change cpu.FlagHalfCarry with (2 ^ 5).
  change cpu.FlagAddSub with (2 ^ 6). change cpu.FlagZero with (2 ^ 7).
  assert (Hbits : forall j, 0 <= j < 4 -> Z.testbit f j = false).
  { intros j Hj. change 0x0F with (Z.ones 4) in Hlow.
    apply (f_equal (fun x => Z.testbit x j)) in Hlow.
    rewrite Z.land_spec, Z.ones_spec_low, Z.bits_0, andb_true_r in Hlow by lia.
    exact Hlow. }
  apply uint8_ext.
  - apply Clear_uint8, Set_uint8; [lia |]. apply Clear_uint8, SetIf_uint8; [lia | assumption].
  - destruct (_ =? 0); unfold is_uint8; lia.
  - intros j Hj.
    rewrite (testbit_Clear _ 4), (testbit_Set _ 5), (testbit_Clear _ 6),
      (testbit_SetIf _ 7) by lia.
    assert (Hc : j = 0 \/ j = 1 \/ j = 2 \/ j = 3 \/ j = 4 \/ j = 5 \/ j = 6 \/ j = 7)
      by lia.
    destruct Hc as [-> | [-> | [-> | [-> | [-> | [-> | [-> | ->]]]]]]];
      cbn [Z.eqb Pos.eqb negb];
      rewrite ?Hbits by lia; destruct (Z.land left right =? 0);
      repeat match goal with
             | |- context [Z.testbit f ?i] => destruct (Z.testbit f i)
             end;
      reflexivity.
Qed.

Lemma and_spec_witness :
  fst (cpu.and 0xAA 0x55 0xD0) = Z.land 0xAA 0x55 /\
  (IsSet (snd (cpu.and 0xAA 0x55 0xD0)) cpu.FlagZero = true
   <-> fst (cpu.and 0xAA 0x55 0xD0) = 0) /\
  IsSet (snd (cpu.and 0xAA 0x55 0xD0)) cpu.FlagHalfCarry = true /\
  IsSet (snd (cpu.and 0xAA 0x55 0xD0)) cpu.FlagAddSub = false /\
  IsSet (snd (cpu.and 0xAA 0x55 0xD0)) cpu.FlagCarry = false /\
  snd (cpu.and 0xAA 0x55 0xD0)
    = (if fst (cpu.and 0xAA 0x55 0xD0) =? 0 then 0xA0 else 0x20).
Proof.
  apply (and_spec 0xAA 0x55 0xD0).
  - unfold is_uint8. lia.
  - vm_compute. reflexivity.
Defined.

(** X12: [bit] tests one bit.  For an index below 8, Zero is set iff
    that bit of the value is clear; for an index from 8 on, [1<<b] is 0 in
    [uint8] and Zero is set whatever the value; Carry, Half-Carry and
    Add/Subtract read as before. *)
Theorem bit_spec (b val f Q : Z) :
  is_uint8 b ->
  In Q [cpu.FlagCarry; cpu.FlagHalfCarry; cpu.FlagAddSub] ->
  (b < 8 -> (IsSet (cpu.bit b val f) cpu.FlagZero = true <-> Z.testbit val b = false)) /\
  (8 <= b -> IsSet (cpu.bit b val f) cpu.FlagZero = true) /\
  IsSet (cpu.bit b val f) Q = IsSet f Q.
Proof.
  unfold is_uint8. intros Hb HQ. unfold cpu.bit.
  rewrite shift_one_uint8 by lia.
  change cpu.FlagZero with (2 ^ 7).
  split; [| split].
  - intros Hlt. rewrite IsSet_SetIf by lia. cbn [Z.eqb Pos.eqb].
    destruct (Z.ltb_spec b 8); [| lia].
    rewrite land_pow2 by lia.
    assert (0 < 2 ^ b) by (apply Z.pow_pos_nonneg; lia).
    destruct (Z.testbit val b).
    + destruct (Z.eqb_spec (2 ^ b) 0); [lia |]. split; discriminate.
    + split; reflexivity.
  - intros Hge. rewrite IsSet_SetIf by lia. cbn [Z.eqb Pos.eqb].
    destruct (Z.ltb_spec b 8); [lia |]. now rewrite Z.land_0_r.
  - cbn [In] in HQ.
    destruct HQ as [<- | [<- | [<- | []]]];
      [change cpu.FlagCarry with (2 ^ 4) | change cpu.FlagHalfCarry with (2 ^ 5)
       | change cpu.FlagAddSub with (2 ^ 6)];
      now rewrite IsSet_SetIf by lia.
Qed.

Lemma bit_spec_witness :
  (6 < 8 -> (IsSet (cpu.bit 6 0xBF 0x10) cpu.FlagZero = true
             <-> Z.testbit 0xBF 6 = false)) /\
  (8 <= 6 -> IsSet (cpu.bit 6 0xBF 0x10) cpu.FlagZero = true) /\
  IsSet (cpu.bit 6 0xBF 0x10) cpu.FlagCarry = IsSet 0x10 cpu.FlagCarry.
Proof.
  apply (bit_spec 6 0xBF 0x10 cpu.FlagCarry).
  - unfold is_uint8. lia.
  - cbn [In]. auto.
Defined.

(** X13: the primitives keep their results in their types.  From 8-bit
    flags, [add8] stores an 8-bit result and [add16] a 16-bit result (the
    stores truncate), [and] stores an 8-bit result when [left] is 8-bit,
    and [add8], [add16], [and] and [bit] all give 8-bit flags. *)
Theorem primitives_stay_in_range (left right f b val : Z) (withCarry : bool) :
  is_uint8 f ->
  (is_uint8 (fst (cpu.add8 left right f withCarry)) /\
   is_uint8 (snd (cpu.add8 left right f withCarry))) /\
  (is_uint16 (fst (cpu.add16 left right f)) /\
   is_uint8 (snd (cpu.add16 left right f))) /\
  (is_uint8 left ->
   is_uint8 (fst (cpu.and left right f)) /\ is_uint8 (snd (cpu.and left right f))) /\
  is_uint8 (cpu.bit b val f).
Proof.
  intros Hf.
  unfold cpu.add8, cpu.add16, cpu.and, cpu.bit. cbv zeta. cbn [fst snd].
  change cpu.FlagCarry with (2 ^ 4). change cpu.FlagHalfCarry with (2 ^ 5).
  change cpu.FlagAddSub with (2 ^ 6). change cpu.FlagZero with (2 ^ 7).
  repeat split; try apply uint8_range; try apply uint16_range;
    try (intros; now apply land_uint8);
    repeat first [ apply SetIf_uint8; [lia |] | apply Clear_uint8
                 | apply Set_uint8; [lia |] ];
    assumption.
Qed.

Lemma primitives_stay_in_range_witness :
  (is_uint8 (fst (cpu.add8 0xFF 0xFF 0xF0 true)) /\
   is_uint8 (snd (cpu.add8 0xFF 0xFF 0xF0 true))) /\
  (is_uint16 (fst (cpu.add16 0xFFFF 0xFFFF 0xF0)) /\
   is_uint8 (snd (cpu.add16 0xFFFF 0xFFFF 0xF0))) /\
  (is_uint8 0xFF ->
   is_uint8 (fst (cpu.and 0xFF 0xFF 0xF0)) /\ is_uint8 (snd (cpu.and 0xFF 0xFF 0xF0))) /\
  is_uint8 (cpu.bit 7 0xFF 0xF0).
Proof.
  apply (primitives_stay_in_range 0xFF 0xFF 0xF0 7 0xFF true).
  unfold is_uint8. lia.
Defined.

(** X14: addition is commutative in the code too: without carry-in,
    [add8] gives the same result and the same flags when its operands are
    exchanged, and so does [add16]. *)
Theorem add_commutes (left right f : Z) :
  cpu.add8 left right f false = cpu.add8 right left f false /\
  cpu.add16 left right f = cpu.add16 right left f.
Proof.
  unfold cpu.add8, cpu.add16. cbv zeta. cbn [andb].
  rewrite (Z.add_comm right left).
  rewrite (Z.add_comm (Z.land right 0x0F) (Z.land left 0x0F)).
  rewrite (Z.add_comm (Z.land right 0xFFF) (Z.land left 0xFFF)).
  split; reflexivity.
Qed.

(** X15: the Carry flag is the ninth (seventeenth) bit of the sum: after
    [add8], the sum of [left] and the right operand (after the carry-in)
    is the stored result plus 256 if Carry is set; after [add16], the sum
    is the stored result plus 65536 if Carry is set. *)
Theorem carry_completes_sum (left right f : Z) (withCarry : bool) :
  (is_uint8 left -> is_uint8 right ->
   let right' :=
     if withCarry && IsSet f cpu.FlagCarry then (right + 1) mod 2 ^ 8 else right in
   left + right' =
     fst (cpu.add8 left right f withCarry)
     + (if IsSet (snd (cpu.add8 left right f withCarry)) cpu.FlagCarry
        then 2 ^ 8 else 0)) /\
  (is_uint16 left -> is_uint16 right ->
   left + right =
     fst (cpu.add16 left right f)
     + (if IsSet (snd (cpu.add16 left right f)) cpu.FlagCarry then 2 ^ 16 else 0)).
Proof.
  split.
  - intros Hl Hr right'.
    destruct (add8_closed_form left right f withCarry right' Hl Hr eq_refl)
      as (El & Ec & _).
    rewrite El, Ec.
    assert (Hr' : is_uint8 right').
    { subst right'. destruct (withCarry && _); [apply uint8_range | assumption]. }
    unfold is_uint8 in Hl, Hr'.
    change (2 ^ 8) with 256 in *.
    destruct (Z.gtb_spec (left + right') 0xFF); Z.div_mod_to_equations; lia.
  - intros Hl Hr.
    destruct (add16_closed_form left right f Hl Hr) as (El & Ec & _).
    rewrite El, Ec. unfold is_uint16 in Hl, Hr.
    change (2 ^ 16) with 65536 in *.
    destruct (Z.gtb_spec (left + right) 0xFFFF); Z.div_mod_to_equations; lia.
Qed.

Lemma carry_completes_sum_witness :
  0xFF + 40 =
    fst (cpu.add8 0xFF 40 cpu.FlagEmpty false)
    + (if IsSet (snd (cpu.add8 0xFF 40 cpu.FlagEmpty false)) cpu.FlagCarry
       then 2 ^ 8 else 0) /\
  0xFFFF + 0x0002 =
    fst (cpu.add16 0xFFFF 0x0002 cpu.FlagEmpty)
    + (if IsSet (snd (cpu.add16 0xFFFF 0x0002 cpu.FlagEmpty)) cpu.FlagCarry
       then 2 ^ 16 else 0).
Proof.
  split.
  - apply (proj1 (carry_completes_sum 0xFF 40 cpu.FlagEmpty false));
      unfold is_uint8; lia.
  - apply (proj2 (carry_completes_sum 0xFFFF 0x0002 cpu.FlagEmpty false));
      unfold is_uint16; lia.
Defined.

End ArithProps.

(* ===================================================================== *)
(** ** More about the stack and [call] *)
(* ===================================================================== *)

Module StackProps.
Import Go GoFacts memory MemoryFacts MemoryProps StackFacts.

(** The cells after a [SetWord] that succeeds. *)
Lemma SetWord_cells (r r' : RAM) (addr val : Z) :
  is_int (addr + 1) ->
  RAM_SetWord r addr val = Return (r', None) ->
  0 <= addr /\ addr + 1 < len r.(data) /\ len r'.(data) = len r.(data) /\
  r'.(data) !!! Z.to_nat addr = uint8 (Z.shiftr (Z.land val 0xFF00) 8) /\
  r'.(data) !!! Z.to_nat (addr + 1) = uint8 (Z.land val 0x00FF) /\
  forall i : nat, i <> Z.to_nat addr -> i <> Z.to_nat (addr + 1) ->
    r'.(data) !!! i = r.(data) !!! i.
Proof.
  intros Hi E.
  destruct (SetWord_inv r addr val r' None Hi E)
    as [(_ & _ & [=]) | (H0 & Ha & -> & _)].
  assert (Hl : (Z.to_nat (addr + 1) < length r.(data))%nat) by (unfold len in Ha; lia).
  cbn [data]. repeat split; try lia.
  - now rewrite !len_insert.
  - rewrite list_lookup_total_insert_ne by lia.
    now rewrite list_lookup_total_insert_eq by lia.
  - now rewrite list_lookup_total_insert_eq by (rewrite length_insert; lia).
  - intros i Hi0 Hi1. now rewrite !list_lookup_total_insert_ne by lia.
Qed.

(** Two memories of the same size that agree at [addr] and [addr + 1]
    answer [GetWord] at [addr] alike. *)
Lemma GetWord_agree (r r' : RAM) (addr : Z) :
  is_int (addr + 1) -> 0 <= addr ->
  len r'.(data) = len r.(data) ->
  r'.(data) !!! Z.to_nat addr = r.(data) !!! Z.to_nat addr ->
  r'.(data) !!! Z.to_nat (addr + 1) = r.(data) !!! Z.to_nat (addr + 1) ->
  RAM_GetWord r' addr = RAM_GetWord r addr.
Proof.
  intros Hi H0 Hlen Ea Eb.
  destruct (Z.le_gt_cases (len r.(data)) (addr + 1)) as [Hout | Hin].
  - now rewrite !RAM_GetWord_out by (assumption || lia).
  - rewrite !RAM_GetWord_in by (assumption || lia). now rewrite Ea, Eb.
Qed.

(** X16: what a successful [push] does to the memory.  SP goes down by 2
    and stays at least 1; the memory keeps its size; the high byte of the
    value is at the new SP and the low byte above it; every other address
    reads as before.  The byte at address 0 is never written by [push]. *)
Theorem push_effect (val sp : Z) (mem : RAM) (sp' : Z) (mem' : RAM) :
  is_uint16 val -> is_uint16 sp ->
  cpu.push val sp mem = Return (sp', mem', None) ->
  sp' = sp - 2 /\ 1 <= sp' /\
  len mem'.(data) = len mem.(data) /\
  GetByte mem' sp' = Return (val / 2 ^ 8, None) /\
  GetByte mem' (sp' + 1) = Return (val mod 2 ^ 8, None) /\
  (forall b, b <> sp' -> b <> sp' + 1 -> GetByte mem' b = GetByte mem b) /\
  GetByte mem' 0 = GetByte mem 0.
Proof.
  intros Hv Hsp Hpush.
  destruct (push_cases val sp mem Hsp)
    as [[_ E] | [(_ & _ & E) | (Hgt & _ & m & Hset & E)]];
    rewrite E in Hpush; try discriminate.
  injection Hpush as <- <-.
  unfold is_uint16 in Hsp.
  assert (Hi : is_int (sp - 2 + 1)) by (unfold is_int; lia).
  destruct (SetWord_cells mem m (sp - 2) val Hi Hset) as (H0 & Ha & Hlen & Eh & El & Ho).
  rewrite high_byte in Eh by assumption. rewrite low_byte in El.
  assert (Hothers : forall b, b <> sp - 2 -> b <> sp - 2 + 1 -> GetByte m b = GetByte mem b).
  { intros b Hb Hb'. apply GetByte_agree; [assumption |].
    intros Hr. apply Ho; lia. }
  split; [reflexivity |]. split; [lia |]. split; [assumption |].
  cbn [GetByte RAM_MMU].
  split; [rewrite RAM_GetByte_in by lia; now rewrite Eh |].
  split; [rewrite RAM_GetByte_in by lia; now rewrite El |].
  split; [exact Hothers | apply Hothers; lia].
Qed.

Lemma push_effect_witness :
  3 = 5 - 2 /\ 1 <= 3 /\
  len [0; 0; 0; 0xBE; 0xEF; 0] = len (NewRAM 6).(data) /\
  GetByte {| data := [0; 0; 0; 0xBE; 0xEF; 0] |} 3 = Return (0xBEEF / 2 ^ 8, None) /\
  GetByte {| data := [0; 0; 0; 0xBE; 0xEF; 0] |} (3 + 1)
    = Return (0xBEEF mod 2 ^ 8, None) /\
  (forall b, b <> 3 -> b <> 3 + 1 ->
     GetByte {| data := [0; 0; 0; 0xBE; 0xEF; 0] |} b = GetByte (NewRAM 6) b) /\
  GetByte {| data := [0; 0; 0; 0xBE; 0xEF; 0] |} 0 = GetByte (NewRAM 6) 0.
Proof.
  apply (push_effect 0xBEEF 5 (NewRAM 6) 3 {| data := [0; 0; 0; 0xBE; 0xEF; 0] |}).
  - unfold is_uint16. lia.
  - unfold is_uint16. lia.
  - vm_compute. reflexivity.
Defined.

(** X17: the outcomes of [push] on a RAM.  It never panics; it succeeds
    iff [2 < SP] and the two bytes below SP are in the RAM; it returns
    [ErrAddressOutOfRange] iff [2 < SP] and they are not, and then the
    memory is as it was but SP has already been decremented by 2; it
    never returns [ErrStackUnderflow]. *)
Theorem push_outcomes (val sp : Z) (mem : RAM) :
  is_uint16 sp ->
  exists sp' mem' e,
    cpu.push val sp mem = Return (sp', mem', e) /\
    (e = None <-> 2 < sp /\ sp - 1 < len mem.(data)) /\
    (e = Some ErrAddressOutOfRange <-> 2 < sp /\ len mem.(data) <= sp - 1) /\
    (e = Some ErrAddressOutOfRange -> sp' = sp - 2 /\ mem' = mem) /\
    e <> Some ErrStackUnderflow.
Proof.
  intros Hsp.
  destruct (push_cases val sp mem Hsp)
    as [[Hle E] | [(Hgt & Hout & E) | (Hgt & Hin & m & _ & E)]];
    rewrite E; eexists _, _, _; (split; [reflexivity |]).
  - split; [split; [discriminate | lia] |].
    split; [split; [discriminate | lia] |].
    split; discriminate.
  - split; [split; [discriminate | lia] |].
    split; [split; [intros _; lia | reflexivity] |].
    split; [intros _; split; reflexivity | discriminate].
  - split; [split; [intros _; lia | reflexivity] |].
    split; [split; [discriminate | lia] |].
    split; discriminate.
Qed.

Lemma push_outcomes_witness :
  exists sp' mem' e,
    cpu.push 0xBEEF 0x100 (NewRAM 0xFF) = Return (sp', mem', e) /\
    (e = None <-> 2 < 0x100 /\ 0x100 - 1 < len (NewRAM 0xFF).(data)) /\
    (e = Some ErrAddressOutOfRange <-> 2 < 0x100 /\ len (NewRAM 0xFF).(data) <= 0x100 - 1) /\
    (e = Some ErrAddressOutOfRange -> sp' = 0x100 - 2 /\ mem' = NewRAM 0xFF) /\
    e <> Some ErrStackUnderflow.
Proof. apply (push_outcomes 0xBEEF 0x100 (NewRAM 0xFF)). unfold is_uint16. lia. Defined.

(** X18: the stack is last-in first-out.  After two successful pushes of
    [a] then [b], the first [pop] returns [b] and the second returns [a],
    and SP is back where it started. *)
Theorem push_push_pop_pop (a b sp : Z) (mem : RAM) (sp1 : Z) (mem1 : RAM)
    (sp2 : Z) (mem2 : RAM) :
  is_uint16 a -> is_uint16 b -> is_uint16 sp ->
  cpu.push a sp mem = Return (sp1, mem1, None) ->
  cpu.push b sp1 mem1 = Return (sp2, mem2, None) ->
  cpu.pop sp2 mem2 = Return (sp1, (b, None)) /\
  cpu.pop sp1 mem2 = Return (sp, (a, None)).
Proof.
  intros Ha Hb Hsp Hp1 Hp2.
  destruct (push_cases a sp mem Hsp)
    as [[_ E] | [(_ & _ & E) | (Hgt & _ & m & Hset & E)]];
    rewrite E in Hp1; try discriminate.
  injection Hp1 as <- <-.
  assert (Hsp1 : is_uint16 (sp - 2)) by (unfold is_uint16 in *; lia).
  destruct (push_cases b (sp - 2) m Hsp1)
    as [[_ E'] | [(_ & _ & E') | (Hgt' & _ & m' & Hset' & E')]];
    rewrite E' in Hp2; try discriminate.
  injection Hp2 as <- <-.
  split; [now apply (pop_after_SetWord b (sp - 2) m m') |].
  unfold is_uint16 in Hsp.
  assert (Hi : is_int (sp - 2 + 1)) by (unfold is_int; lia).
  assert (Hi' : is_int (sp - 2 - 2 + 1)) by (unfold is_int; lia).
  destruct (SetWord_cells m m' (sp - 2 - 2) b Hi' Hset') as (_ & _ & Hlen & _ & _ & Ho).
  unfold cpu.pop. cbn [GetWord RAM_MMU].
  rewrite (GetWord_agree m m' (sp - 2)) by (assumption || lia || (apply Ho; lia)).
  rewrite (RAM_SetWord_GetWord mem m (sp - 2) a Ha Hi Hset). cbn.
  replace (sp - 2 + 2) with sp by lia.
  now rewrite uint16_id.
Qed.

Lemma push_push_pop_pop_witness :
  cpu.pop 2 {| data := [0; 0; 0xFE; 0xED; 0xBE; 0xEF; 0] |}
    = Return (4, (0xFEED, None)) /\
  cpu.pop 4 {| data := [0; 0; 0xFE; 0xED; 0xBE; 0xEF; 0] |}
    = Return (6, (0xBEEF, None)).
Proof.
  apply (push_push_pop_pop 0xBEEF 0xFEED 6 (NewRAM 7)
           4 {| data := [0; 0; 0; 0; 0xBE; 0xEF; 0] |}).
  - unfold is_uint16. lia.
  - unfold is_uint16. lia.
  - unfold is_uint16. lia.
  - vm_compute. reflexivity.
  - vm_compute. reflexivity.
Defined.

(** X19: [push] undoes [pop], except at the bottom.  In a RAM whose cells
    are bytes, after a [pop] that succeeds at SP, pushing the popped value
    back restores SP and leaves the memory exactly as it was, provided
    [SP >= 1]; a word popped at SP = 0 cannot be pushed back: the push
    returns [ErrStackOverflow]. *)
Theorem pop_then_push (sp : Z) (mem : RAM) (sp' v : Z) :
  Forall is_uint8 mem.(data) -> is_uint16 sp -> len mem.(data) < 2 ^ 16 ->
  cpu.pop sp mem = Return (sp', (v, None)) ->
  (1 <= sp -> cpu.push v sp' mem = Return (sp, mem, None)) /\
  (sp = 0 -> cpu.push v sp' mem = Return (sp', mem, Some ErrStackOverflow)).
Proof.
  intros Hb Hsp Hlen Hpop.
  destruct (pop_cases sp mem Hsp Hlen) as [(_ & _ & E) | (Hin & w & Eg & E)];
    rewrite E in Hpop; [discriminate |].
  injection Hpop as <- <-.
  unfold is_uint16 in Hsp.
  assert (Hi : is_int (sp + 1)) by (unfold is_int; lia).
  cbn [GetWord RAM_MMU] in Eg. rewrite RAM_GetWord_in in Eg by (assumption || lia).
  injection Eg as <-.
  assert (Hh : is_uint8 (mem.(data) !!! Z.to_nat sp))
    by (apply (Forall_lookup_total_1 is_uint8); [assumption | unfold len in Hin; lia]).
  assert (Hl : is_uint8 (mem.(data) !!! Z.to_nat (sp + 1)))
    by (apply (Forall_lookup_total_1 is_uint8); [assumption | unfold len in Hin; lia]).
  rewrite word_value by assumption.
  set (hi := mem.(data) !!! Z.to_nat sp) in *.
  set (lo := mem.(data) !!! Z.to_nat (sp + 1)) in *.
  split.
  - intros H1. unfold cpu.push.
    destruct (Z.leb_spec (sp + 2) 2); [lia |]. cbv zeta.
    replace (sp + 2 - 2) with sp by lia.
    rewrite uint16_id by (unfold is_uint16; lia).
    cbn [SetWord RAM_MMU]. rewrite RAM_SetWord_in by (assumption || lia).
    unfold is_uint8 in Hh, Hl.
    rewrite high_byte by (unfold is_uint16; lia). rewrite low_byte.
    change (2 ^ 8) with 256 in *.
    replace ((256 * hi + lo) / 256) with hi by (Z.div_mod_to_equations; lia).
    replace ((256 * hi + lo) mod 256) with lo by (Z.div_mod_to_equations; lia).
    subst hi lo.
    rewrite (list_insert_id mem.(data) (Z.to_nat sp))
      by (apply list_lookup_lookup_total_lt; unfold len in Hin; lia).
    rewrite (list_insert_id mem.(data) (Z.to_nat (sp + 1)))
      by (apply list_lookup_lookup_total_lt; unfold len in Hin; lia).
    cbn. now destruct mem.
  - intros ->. reflexivity.
Qed.

Lemma pop_then_push_witness :
  (1 <= 1 ->
   cpu.push 0xBEEF 3 {| data := [0; 0xBE; 0xEF; 0] |}
     = Return (1, {| data := [0; 0xBE; 0xEF; 0] |}, None)) /\
  (1 = 0 ->
   cpu.push 0xBEEF 3 {| data := [0; 0xBE; 0xEF; 0] |}
     = Return (3, {| data := [0; 0xBE; 0xEF; 0] |}, Some ErrStackOverflow)).
Proof.
  apply (pop_then_push 1 {| data := [0; 0xBE; 0xEF; 0] |} 3 0xBEEF).
  - repeat constructor; unfold is_uint8; lia.
  - unfold is_uint16. lia.
  - vm_compute. reflexivity.
  - vm_compute. reflexivity.
Defined.

(** X20: the outcomes of [call] on a RAM.  It never panics and succeeds
    iff [2 < SP] and the two bytes below SP are in the RAM; then PC is the
    address and SP is 2 lower.  It returns [ErrStackOverflow] iff
    [SP <= 2], and then PC, SP and the memory are all as they were.  On
    any failure PC and the memory are as they were. *)
Theorem call_outcomes (addr pc sp : Z) (mem : RAM) :
  is_uint16 sp ->
  exists pc' sp' mem' e,
    cpu.call addr pc sp mem = Return (pc', sp', mem', e) /\
    (e = None <-> 2 < sp /\ sp - 1 < len mem.(data)) /\
    (e = None -> pc' = addr /\ sp' = sp - 2) /\
    (e = Some ErrStackOverflow <-> sp <= 2) /\
    (e = Some ErrStackOverflow -> sp' = sp) /\
    (e <> None -> pc' = pc /\ mem' = mem).
Proof.
  intros Hsp.
  destruct (push_cases pc sp mem Hsp)
    as [[Hle E] | [(Hgt & Hout & E) | (Hgt & Hin & m & _ & E)]];
    rewrite (call_after_push addr pc sp mem _ _ _ E);
    eexists _, _, _, _; (split; [reflexivity |]).
  - split; [split; [discriminate | lia] |].
    split; [discriminate |].
    split; [split; [intros _; lia | reflexivity] |].
    split; [reflexivity | intros _; split; reflexivity].
  - split; [split; [discriminate | lia] |].
    split; [discriminate |].
    split; [split; [discriminate | lia] |].
    split; [discriminate | intros _; split; reflexivity].
  - split; [split; [intros _; lia | reflexivity] |].
    split; [intros _; split; reflexivity |].
    split; [split; [discriminate | lia] |].
    split; [discriminate | intros Hne; contradiction].
Qed.

Lemma call_outcomes_witness :
  exists pc' sp' mem' e,
    cpu.call 0xBEEF 0xFEED 0x02 (NewRAM 0xFF) = Return (pc', sp', mem', e) /\
    (e = None <-> 2 < 0x02 /\ 0x02 - 1 < len (NewRAM 0xFF).(data)) /\
    (e = None -> pc' = 0xBEEF /\ sp' = 0x02 - 2) /\
    (e = Some ErrStackOverflow <-> 0x02 <= 2) /\
    (e = Some ErrStackOverflow -> sp' = 0x02) /\
    (e <> None -> pc' = 0xFEED /\ mem' = NewRAM 0xFF).
Proof.
  apply (call_outcomes 0xBEEF 0xFEED 0x02 (NewRAM 0xFF)). unfold is_uint16. lia.
Defined.

End StackProps.

(* ===================================================================== *)
(** ** More about the header parser and the dump tool *)
(* ===================================================================== *)

Module RomProps.
Import Go GoFacts gogb RomFacts.

(** The input of [strings.TrimRight] is its result followed by a run of
    the cutset byte, and the result does not end with that byte. *)
Lemma TrimRight_run (s : gostring) (c : Z) :
  (exists n, s = strings_TrimRight s c ++ replicate n c) /\
  last (strings_TrimRight s c) <> Some c.
Proof.
  induction s as [| b s [[n IHn] IHl]]; cbn [strings_TrimRight].
  - split; [exists 0%nat; reflexivity | discriminate].
  - destruct (strings_TrimRight s c) as [| x t] eqn:Et.
    + destruct (Z.eqb_spec b c) as [-> | Hne].
      * split; [exists (S n); cbn; now rewrite IHn at 1 | discriminate].
      * split; [exists n; cbn; now rewrite IHn at 1 |].
        cbn. intros [= E]. contradiction.
    + split; [exists n; cbn; now rewrite IHn at 1 | exact IHl].
Qed.

(** X21: [strings.TrimRight] with a one-byte cutset removes exactly the
    trailing run of that byte: the input is the result followed by some
    number of copies of the byte, the result does not end with it, and
    trimming a second time changes nothing. *)
Theorem TrimRight_spec (s : gostring) (c : Z) :
  (exists n, s = strings_TrimRight s c ++ replicate n c) /\
  last (strings_TrimRight s c) <> Some c /\
  strings_TrimRight (strings_TrimRight s c) c = strings_TrimRight s c.
Proof.
  destruct (TrimRight_run s c) as [Hn Hl].
  split; [exact Hn |]. split; [exact Hl |].
  revert Hl. clear Hn.
  induction (strings_TrimRight s c) as [| b t IH]; [reflexivity |].
  intros Hl. cbn [strings_TrimRight].
  destruct t as [| x t'].
  - cbn. destruct (Z.eqb_spec b c) as [-> | Hne]; [now contradict Hl | reflexivity].
  - rewrite IH by exact Hl. reflexivity.
Qed.

Lemma TrimRight_length (s : gostring) (c : Z) :
  (length (strings_TrimRight s c) <= length s)%nat.
Proof.
  destruct (TrimRight_run s c) as [[n E] _].
  rewrite E at 2. rewrite length_app. lia.
Qed.

Lemma getROMSize_range (size : Z) : 0 <= getROMSize size <= 8192.
Proof.
  unfold getROMSize.
  repeat match goal with
         | |- context [match ?x with _ => _ end] => destruct x
         end; lia.
Qed.

Lemma getRAMSize_range (size : Z) : 0 <= getRAMSize size <= 128.
Proof.
  unfold getRAMSize.
  repeat match goal with
         | |- context [match ?x with _ => _ end] => destruct x
         end; lia.
Qed.

(** X22: what a header parsed from 0x50 bytes looks like.  The title is
    the bytes 0x34..0x3E without their trailing NULs: at most 11 bytes,
    not ending in NUL; the manufacturer code is at most 3 bytes; the new
    licensee code is the single byte at 0x44; the global checksum is the
    big-endian word at 0x4E, 0x4F; the ROM size is at most 8192 KB and the
    RAM size at most 128 KB.  This holds whether or not the header
    checksum is valid. *)
Theorem ParseHeader_fields (inp : list Z) (header header' : CartridgeHeader)
    (e : option error) :
  Forall is_uint8 inp -> length inp = 0x50%nat ->
  ParseHeader inp header = Return (header', e) ->
  (exists n, slice inp 0x34 0x3F = header'.(Title) ++ replicate n 0x00) /\
  (length header'.(Title) <= 11)%nat /\
  last header'.(Title) <> Some 0x00 /\
  (length header'.(ManufacturerCode) <= 3)%nat /\
  header'.(NewLicenseeCode) = [inp !!! 0x44%nat] /\
  header'.(GlobalChecksum) = 2 ^ 8 * inp !!! 0x4E%nat + inp !!! 0x4F%nat /\
  is_uint16 header'.(GlobalChecksum) /\
  0 <= header'.(ROMSize) <= 8192 /\
  0 <= header'.(RAMSize) <= 128.
Proof.
  intros Hb Hlen E. rewrite (ParseHeader_0x50 inp header Hlen) in E.
  injection E as <- _. cbn [Title ManufacturerCode NewLicenseeCode GlobalChecksum
                              ROMSize RAMSize].
  assert (H4E : is_uint8 (inp !!! 0x4E%nat))
    by (apply (Forall_lookup_total_1 is_uint8); [assumption | lia]).
  assert (H4F : is_uint8 (inp !!! 0x4F%nat))
    by (apply (Forall_lookup_total_1 is_uint8); [assumption | lia]).
  destruct (TrimRight_run (slice inp 0x34 0x3F) 0x00) as (Hn & Hl).
  split; [exact Hn |].
  split; [etransitivity; [apply TrimRight_length |]; rewrite len_slice by lia; lia |].
  split; [exact Hl |].
  split; [etransitivity; [apply TrimRight_length |]; rewrite len_slice by lia; lia |].
  split.
  { unfold slice. change (0x45 - 0x44)%nat with 1%nat.
    rewrite (drop_S inp (inp !!! 0x44%nat) 0x44)
      by (apply list_lookup_lookup_total_lt; lia).
    reflexivity. }
  assert (Hg : Z.lor (inp !!! 0x4F%nat) (uint16 (Z.shiftl (inp !!! 0x4E%nat) 8))
               = 2 ^ 8 * inp !!! 0x4E%nat + inp !!! 0x4F%nat).
  { rewrite Z.lor_comm. now apply MemoryProps.word_value. }
  rewrite Hg. split; [reflexivity |].
  split; [unfold is_uint8 in H4E, H4F; unfold is_uint16; lia |].
  split; [apply getROMSize_range | apply getRAMSize_range].
Qed.

Lemma ParseHeader_fields_witness :
  exists header' e,
    ParseHeader (replicate 0x34 0 ++ [0x5A; 0x45] ++ replicate 0x17 0 ++ [0x48; 0x12; 0x34])
      (Build_CartridgeHeader [] [] CgbNotSupported [] false 0 0 0 false 0 0 0)
      = Return (header', e) /\
    (length header'.(Title) <= 11)%nat /\
    header'.(GlobalChecksum)
      = 2 ^ 8 * (replicate 0x34 0 ++ [0x5A; 0x45] ++ replicate 0x17 0
                 ++ [0x48; 0x12; 0x34]) !!! 0x4E%nat
        + (replicate 0x34 0 ++ [0x5A; 0x45] ++ replicate 0x17 0
           ++ [0x48; 0x12; 0x34]) !!! 0x4F%nat.
Proof.
  eexists _, _. split; [vm_compute; reflexivity |].
  match goal with
  | |- context [Title ?h] =>
      destruct (ParseHeader_fields
                  (replicate 0x34 0 ++ [0x5A; 0x45] ++ replicate 0x17 0
                   ++ [0x48; 0x12; 0x34])
                  (Build_CartridgeHeader [] [] CgbNotSupported [] false 0 0 0 false 0 0 0)
                  h None)
        as (_ & Ht & _ & _ & _ & Hg & _)
  end.
  - vm_compute. repeat constructor; discriminate.
  - reflexivity.
  - vm_compute. reflexivity.
  - split; [exact Ht | exact Hg].
Defined.

(** The running subtraction, in closed form. *)
Lemma fold_checksum (l : list Z) :
  forall acc,
    fold_left (fun a b => (a - b - 1) mod 2 ^ 8) l acc mod 2 ^ 8
    = (acc - fold_right Z.add 0 l - Z.of_nat (length l)) mod 2 ^ 8.
Proof.
  induction l as [| b l IH]; intros acc; cbn [fold_left fold_right length].
  - f_equal. lia.
  - rewrite IH. rewrite <- Z.sub_add_distr, Zminus_mod_idemp_l. f_equal. lia.
Qed.

Lemma fold_checksum_range (l : list Z) :
  forall acc, is_uint8 acc ->
    is_uint8 (fold_left (fun a b => (a - b - 1) mod 2 ^ 8) l acc).
Proof.
  induction l as [| b l IH]; intros acc Ha; cbn [fold_left]; [assumption |].
  apply IH. unfold is_uint8. apply Z.mod_pos_bound. lia.
Qed.

(** X23: the header checksum in closed form.  For a header of 0x50 bytes,
    the value the parser computes is minus the sum of the 25 bytes
    0x34..0x4C minus 25, modulo 256; so the parser reports no error iff
    the byte at 0x4D plus that sum plus 25 is a multiple of 256, and
    [ErrHeaderChecksumInvalid] otherwise. *)
Theorem header_checksum_closed_form (inp : list Z) (header header' : CartridgeHeader)
    (e : option error) :
  length inp = 0x50%nat -> is_uint8 (inp !!! 0x4D%nat) ->
  ParseHeader inp header = Return (header', e) ->
  let sum := fold_right Z.add 0 (slice inp 0x34 0x4D) in
  header_checksum_spec inp = (- sum - 25) mod 2 ^ 8 /\
  (e = None <-> (inp !!! 0x4D%nat + sum + 25) mod 2 ^ 8 = 0) /\
  (e = Some ErrHeaderChecksumInvalid <-> (inp !!! 0x4D%nat + sum + 25) mod 2 ^ 8 <> 0).
Proof.
  intros Hlen Hc E sum.
  assert (Hcs : header_checksum_spec inp = (- sum - 25) mod 2 ^ 8).
  { unfold header_checksum_spec.
    pose proof (fold_checksum (slice inp 0x34 0x4D) 0) as Hf.
    pose proof (fold_checksum_range (slice inp 0x34 0x4D) 0) as Hr.
    rewrite len_slice in Hf by lia.
    rewrite Z.mod_small in Hf by (apply Hr; unfold is_uint8; lia).
    rewrite Hf. subst sum. f_equal. }
  split; [exact Hcs |].
  rewrite (ParseHeader_0x50 inp header Hlen) in E. injection E as _ <-.
  rewrite Hcs. unfold is_uint8 in Hc. change (2 ^ 8) with 256 in *.
  destruct (Z.eqb_spec (inp !!! 0x4D%nat) ((- sum - 25) mod 256)) as [Heq | Hne].
  - assert ((inp !!! 0x4D%nat + sum + 25) mod 256 = 0)
      by (rewrite Heq; Z.div_mod_to_equations; lia).
    split; split; intros; solve [reflexivity | assumption | discriminate | contradiction].
  - assert ((inp !!! 0x4D%nat + sum + 25) mod 256 <> 0)
      by (intros H0; apply Hne; Z.div_mod_to_equations; lia).
    split; split; intros; solve [reflexivity | assumption | discriminate | contradiction].
Qed.

Lemma header_checksum_closed_form_witness :
  let inp := replicate 0x34 0 ++ [0x5A; 0x45] ++ replicate 0x17 0 ++ [0x48; 0x12; 0x34] in
  let sum := fold_right Z.add 0 (slice inp 0x34 0x4D) in
  header_checksum_spec inp = (- sum - 25) mod 2 ^ 8 /\
  (@None error = None <-> (inp !!! 0x4D%nat + sum + 25) mod 2 ^ 8 = 0) /\
  (None = Some ErrHeaderChecksumInvalid
   <-> (inp !!! 0x4D%nat + sum + 25) mod 2 ^ 8 <> 0).
Proof.
  cbv zeta.
  eapply (header_checksum_closed_form
            (replicate 0x34 0 ++ [0x5A; 0x45] ++ replicate 0x17 0 ++ [0x48; 0x12; 0x34])
            (Build_CartridgeHeader [] [] CgbNotSupported [] false 0 0 0 false 0 0 0)).
  - reflexivity.
  - vm_compute. split; [discriminate | reflexivity].
  - vm_compute. reflexivity.
Defined.

(** X24: the parser reads nothing below offset 0x34.  Two slices of 0x50
    bytes that agree from 0x34 on (they may differ in the entry point and
    logo area 0x00..0x33) give the same header and the same error. *)
Theorem ParseHeader_ignores_prefix (inp1 inp2 : list Z) (header : CartridgeHeader) :
  length inp1 = 0x50%nat -> length inp2 = 0x50%nat ->
  drop 0x34 inp1 = drop 0x34 inp2 ->
  ParseHeader inp1 header = ParseHeader inp2 header.
Proof.
  intros Hl1 Hl2 Hd.
  rewrite (ParseHeader_0x50 inp1 header Hl1), (ParseHeader_0x50 inp2 header Hl2).
  assert (Hs : forall lo hi, (0x34 <= lo)%nat -> slice inp1 lo hi = slice inp2 lo hi).
  { intros lo hi Hlo. unfold slice.
    replace lo with (0x34 + (lo - 0x34))%nat by lia.
    rewrite <- !drop_drop. now rewrite Hd. }
  assert (Hi : forall i, (0x34 <= i)%nat -> inp1 !!! i = inp2 !!! i).
  { intros i Hlo. replace i with (0x34 + (i - 0x34))%nat by lia.
    rewrite <- !lookup_total_drop. now rewrite Hd. }
  unfold header_checksum_spec.
  rewrite !(Hs _ _) by lia. rewrite !(Hi _) by lia. reflexivity.
Qed.

Lemma ParseHeader_ignores_prefix_witness :
  ParseHeader (replicate 0x4D 0 ++ [0xE7; 0x01; 0x02])
              (Build_CartridgeHeader [] [] CgbNotSupported [] false 0 0 0 false 0 0 0)
  = ParseHeader (replicate 0x34 0xCE ++ replicate 0x19 0 ++ [0xE7; 0x01; 0x02])
                (Build_CartridgeHeader [] [] CgbNotSupported [] false 0 0 0 false 0 0 0).
Proof. apply ParseHeader_ignores_prefix; reflexivity. Defined.

(** X25: [CartridgeType.String] tells all cartridge types apart: two
    different 8-bit type codes, known or unknown, never print the same
    text. *)
Theorem CartridgeType_String_injective (a b : Z) :
  is_uint8 a -> is_uint8 b ->
  CartridgeType_String a = CartridgeType_String b -> a = b.
Proof.
  unfold is_uint8. intros Ha Hb E.
  assert (Hall : forallb (fun x =>
                   forallb (fun y =>
                     implb (String.eqb (CartridgeType_String x) (CartridgeType_String y))
                           (x =? y))
                     (seqZ 0 256)) (seqZ 0 256) = true)
    by (vm_compute; reflexivity).
  rewrite forallb_forall in Hall.
  assert (Hin : forall x, 0 <= x < 2 ^ 8 -> In x (seqZ 0 256)).
  { intros x Hx. apply list_elem_of_In, elem_of_seqZ. lia. }
  specialize (Hall a (Hin a Ha)). rewrite forallb_forall in Hall.
  specialize (Hall b (Hin b Hb)).
  rewrite E, String.eqb_refl in Hall. cbn in Hall. now apply Z.eqb_eq.
Qed.

Lemma CartridgeType_String_injective_witness : 0x07 = 0x07.
Proof.
  apply (CartridgeType_String_injective 0x07 0x07);
    [unfold is_uint8; lia | unfold is_uint8; lia | reflexivity].
Defined.

(** X26: [CgbSupport.String] indexes a three-element array: it returns a
    name, different for each, on the three declared constants (the only
    values [ParseHeader] stores), and panics on every other 8-bit value. *)
Theorem CgbSupport_String_outcomes (v : Z) :
  is_uint8 v ->
  (forall c, CgbSupport_String (CgbSupport_uint8 c) <> Panic) /\
  (forall c1 c2,
     CgbSupport_String (CgbSupport_uint8 c1) = CgbSupport_String (CgbSupport_uint8 c2) ->
     c1 = c2) /\
  (3 <= v -> CgbSupport_String v = Panic) /\
  (v <= 2 -> exists c, v = CgbSupport_uint8 c).
Proof.
  unfold is_uint8. intros Hv. split; [| split; [| split]].
  - intros []; discriminate.
  - intros [] []; cbn; intros E; (reflexivity || discriminate E).
  - intros H3. unfold CgbSupport_String. apply index_beyond.
    unfold len. cbn [length]. lia.
  - intros H2. assert (Hc : v = 0 \/ v = 1 \/ v = 2) by lia.
    destruct Hc as [-> | [-> | ->]];
      [exists CgbNotSupported | exists CgbSupported | exists CgbRequired]; reflexivity.
Qed.

Lemma CgbSupport_String_outcomes_witness :
  (3 <= 3 -> CgbSupport_String 3 = Panic) /\
  (3 <= 2 -> exists c, 3 = CgbSupport_uint8 c).
Proof.
  destruct (CgbSupport_String_outcomes 3) as (_ & _ & Hp & Hc).
  - unfold is_uint8. lia.
  - split; [exact Hp | exact Hc].
Defined.

End RomProps.

(* ===================================================================== *)
(** ** The global checksum of the dump tool *)
(* ===================================================================== *)

Module MainProps.
Import Go GoFacts.

Lemma sum_app (l1 l2 : list Z) :
  fold_right Z.add 0 (l1 ++ l2) = fold_right Z.add 0 l1 + fold_right Z.add 0 l2.
Proof. induction l1 as [| x l1 IH]; cbn [app fold_right]; lia. Qed.

Lemma loop_app (l1 l2 : list Z) :
  forall idx acc,
    main.actualChecksum_loop (l1 ++ l2) idx acc
    = main.actualChecksum_loop l2 (idx + len l1) (main.actualChecksum_loop l1 idx acc).
Proof.
  induction l1 as [| x l1 IH]; intros idx acc; cbn [app main.actualChecksum_loop].
  - f_equal. unfold len. cbn. lia.
  - rewrite IH. f_equal. unfold len. cbn [length]. lia.
Qed.

(** Away from the two checksum bytes the loop adds every byte. *)
Lemma loop_sum (l : list Z) :
  forall idx acc,
    is_uint16 acc ->
    idx + len l <= 0x014E \/ 0x014F < idx ->
    main.actualChecksum_loop l idx acc = (acc + fold_right Z.add 0 l) mod 2 ^ 16.
Proof.
  induction l as [| x l IH]; intros idx acc Ha Hidx;
    cbn [main.actualChecksum_loop fold_right].
  - rewrite Z.add_0_r. symmetry. now apply uint16_id.
  - unfold len in *. cbn [length] in Hidx.
    destruct (Z.eqb_spec idx 0x014E); [lia |].
    destruct (Z.eqb_spec idx 0x014F); [lia |]. cbn [negb andb].
    rewrite IH by (apply uint16_range || lia).
    unfold uint16. rewrite Zplus_mod_idemp_l. f_equal. lia.
Qed.

(** X27: the global checksum of the dump tool.  For a ROM of at least
    0x150 bytes, the loop of [dumpRom] computes the sum of all bytes except
    those at 0x14E and 0x14F, modulo 65536. *)
Theorem actualChecksum_closed_form (content : list Z) :
  (0x150 <= length content)%nat ->
  main.actualChecksum_loop content 0 0
  = (fold_right Z.add 0 content - content !!! 0x14E%nat - content !!! 0x14F%nat)
      mod 2 ^ 16.
Proof.
  intros Hlen.
  assert (Hx : content !! 0x14E%nat = Some (content !!! 0x14E%nat))
    by (apply list_lookup_lookup_total_lt; lia).
  assert (Hy : content !! 0x14F%nat = Some (content !!! 0x14F%nat))
    by (apply list_lookup_lookup_total_lt; lia).
  set (x := content !!! 0x14E%nat) in *. set (y := content !!! 0x14F%nat) in *.
  assert (E : content = take 0x14E content ++ [x; y] ++ drop 0x150 content).
  { rewrite <- (take_drop 0x14E content) at 1. f_equal.
    rewrite (drop_S content x 0x14E Hx). f_equal.
    rewrite (drop_S content y 0x14F Hy). reflexivity. }
  assert (Hpre : len (take 0x14E content) = 0x14E)
    by (unfold len; rewrite length_take; lia).
  rewrite E at 1 2. rewrite !loop_app, !sum_app.
  rewrite (loop_sum (take 0x14E content) 0 0) by (unfold is_uint16; lia).
  rewrite Hpre. cbn [main.actualChecksum_loop fold_right].
  change (0 + 0x14E =? 0x014E) with true. cbn [negb andb].
  change (0 + 0x14E + 1 =? 0x014E) with false.
  change (0 + 0x14E + 1 =? 0x014F) with true. cbn [negb andb].
  rewrite loop_sum by (apply uint16_range || (unfold len; cbn [length]; lia)).
  rewrite Z.add_0_l, Zplus_mod_idemp_l. f_equal. lia.
Qed.

Lemma actualChecksum_closed_form_witness :
  main.actualChecksum_loop (replicate 0x14E 0xFF ++ [0x12; 0x34; 0x01]) 0 0
  = (fold_right Z.add 0 (replicate 0x14E 0xFF ++ [0x12; 0x34; 0x01])
     - (replicate 0x14E 0xFF ++ [0x12; 0x34; 0x01]) !!! 0x14E%nat
     - (replicate 0x14E 0xFF ++ [0x12; 0x34; 0x01]) !!! 0x14F%nat) mod 2 ^ 16.
Proof.
  apply (actualChecksum_closed_form (replicate 0x14E 0xFF ++ [0x12; 0x34; 0x01])).
  rewrite length_app, length_replicate. cbn [length]. lia.
Defined.

End MainProps.
